(** * Workout timer: the session time-accounting state machine of [src/App.tsx]

    A shallow embedding of the pure helpers ([msToClock], [newWorkout],
    [calcTotals]) and of the seven event handlers of the [App] component
    ([startWorkout], [startSet], [endSetStartRest], [endRestStartSet],
    [nextExercise], [finishWorkout], [resetAll]).

    Conventions of the embedding.
    - A JavaScript [number] that holds a timestamp or a duration is an
      integer of [Z]: [Date.now()] returns an integral number of
      milliseconds, and the handlers only copy, compare, add and subtract
      such values.  This arithmetic is exact on the safe integers (below
      2^53 in absolute value), where every reading of [Date.now()] and every
      difference of two readings lies.
    - [msToClock] divides: [ms / 1000] and [totalSec / 60] are quotients of
      binary64 values, rounded to nearest.  [msToClock_binary64] models
      these roundings; [msToClock] is the same function with the quotients
      of [Z], which is what the source computes on every [ms] below 2^53
      (lemma [msToClock_binary64_exact]) and not beyond.
    - [number | null] is [option Z]; [null] is [None].
    - A handler closes over the current [workout] and either returns without
      calling [setWorkout] (the state stays as it is), calls [setWorkout] with
      a new value, or dereferences [undefined] and raises a [TypeError].  It is
      a function from the current state and the readings that its calls of
      [now()] return, in the order of the calls, to a [Result].
    - The wake-lock requests and the tick counter do not touch the [Workout]
      value and are left out. *)

From Stdlib Require Import ZArith Lia.
From stdpp Require Import base list strings pretty.

Local Open Scope Z_scope.

(** * Part I: the embedding *)

(** ** JavaScript primitives used by the source *)

(** Truthiness of a [number | null]: [null] and [0] are falsy. *)
Definition truthy (o : option Z) : bool :=
  match o with
  | Some t => negb (t =? 0)
  | None => false
  end.

(** [a ?? b]: the right operand only when the left one is [null]. *)
Definition nullish (o : option Z) (d : Z) : Z :=
  match o with
  | Some t => t
  | None => d
  end.

(** [String(n)] for an integer [n]: its decimal digits. *)
Definition String_of (n : Z) : string := pretty n.

(** [padString] repeated and cut to [k] characters. *)
Fixpoint fill (k : nat) (padString cur : string) : string :=
  match k with
  | O => ""
  | S k' =>
      match cur with
      | String c rest => String c (fill k' padString rest)
      | EmptyString =>
          match padString with
          | String c rest => String c (fill k' padString rest)
          | EmptyString => ""
          end
      end
  end.

(** [s.padStart(targetLength, padString)]. *)
Definition padStart (targetLength : nat) (padString s : string) : string :=
  if (targetLength <=? String.length s)%nat then s
  else fill (targetLength - String.length s) padString padString +:+ s.

(** ** [msToClock] *)

Definition pad (n : Z) : string := padStart 2 "0" (String_of n).

(** [msToClock] with the quotients of [Z]: the value of the source for every
    [ms] below 2^53 (see [msToClock_binary64] below for the arithmetic of
    [number]). *)
Definition msToClock (ms : Z) : string :=
  let totalSec := Z.max 0 (ms / 1000) in
  let m := totalSec / 60 in
  let s := Z.rem totalSec 60 in
  String_of m +:+ ":" +:+ pad s.

(** The two characters that render a number of seconds below one hundred. *)
Definition two_digits (s : Z) : string :=
  String (pretty_N_char (Z.to_N (s / 10)))
    (String (pretty_N_char (Z.to_N (s mod 10))) "").

(** ** The arithmetic of [number] in [msToClock]

    A [number] is an IEEE 754 binary64 value.  [msToClock] receives an
    integer [ms] and computes [Math.floor(ms / 1000)], an integer again,
    then [Math.floor(totalSec / 60)] and [totalSec % 60].  The two
    quotients are rounded to the nearest value with a significand of 53
    bits, ties to even; [Math.floor] and [%] are exact.  The operands here
    are integers that a [number] holds exactly, the divisors are 1000 and
    60, and the quotients lie in the normal range of the format (for
    [0 < |x| < 2^1023]), so neither infinities nor subnormal values
    arise. *)

(** [Number.isSafeInteger(n)]. *)
Definition safe_integer (n : Z) : Prop := - 2 ^ 53 < n < 2 ^ 53.

(** A finite binary64 value, [mant * 2 ^ expo]. *)
Record binary64 := {
  mant : Z;
  expo : Z;
}.

(** [floor (log2 (a / d))] for [a, d > 0]. *)
Definition log2_quot (a d : Z) : Z :=
  let l := Z.log2 a - Z.log2 d in
  if d * 2 ^ Z.max 0 l <=? a * 2 ^ Z.max 0 (- l) then l else l - 1.

(** The integer nearest to [num / den], the even one of two that are equally
    near, for [0 <= num] and [0 < den]. *)
Definition round_half_even (num den : Z) : Z :=
  let q := num / den in
  match 2 * (num mod den) ?= den with
  | Lt => q
  | Gt => q + 1
  | Eq => if Z.even q then q else q + 1
  end.

(** [x / y] on numbers that hold the integers [x] and [y > 0]: the
    exponent [e] puts the quotient of the magnitudes between [2^52] and
    [2^53] units of [2^e], and the significand is that quotient rounded to
    an integer. *)
Definition number_div (x y : Z) : binary64 :=
  if x =? 0 then {| mant := 0; expo := 0 |}
  else
    let e := log2_quot (Z.abs x) y - 52 in
    let m := round_half_even (Z.abs x * 2 ^ Z.max 0 (- e))
                             (y * 2 ^ Z.max 0 e) in
    {| mant := Z.sgn x * m; expo := e |}.

(** [Math.floor(v)]; a shift to the left by a negative count is the shift
    to the right, which rounds down. *)
Definition Math_floor (v : binary64) : Z := Z.shiftl (mant v) (expo v).

(** [String(n)] on a number that holds the integer [n]: all the decimal
    digits of [n] when [n] is below 2^53 in absolute value.  Beyond that
    [String] prints the shortest digits that read back as the same number
    (and an exponent from 10^21 on); that part is not modelled, and the
    result is [None]. *)
Definition Number_toString (n : Z) : option string :=
  if Z.abs n <? 2 ^ 53 then Some (String_of n) else None.

(** [msToClock] with the arithmetic of the source.  [None]: the minute count
    is beyond 2^53, where [Number_toString] is not modelled. *)
Definition msToClock_binary64 (ms : Z) : option string :=
  let totalSec := Z.max 0 (Math_floor (number_div ms 1000)) in
  let m := Math_floor (number_div totalSec 60) in
  let s := Z.rem totalSec 60 in
  match Number_toString m, Number_toString s with
  | Some m', Some s' => Some (m' +:+ ":" +:+ padStart 2 "0" s')
  | _, _ => None
  end.

(** ** Data model *)

Inductive Phase := READY | IN_SET | IN_REST.

Record SetLog := {
  setStart : option Z;
  setEnd : option Z;
  restStart : option Z;
  restEnd : option Z;
}.

Record Exercise := {
  id : string;
  name : string;
  sets : list SetLog;
}.

(** The type of the [active] field. *)
Record Active := {
  active_setStart : option Z;
  active_restStart : option Z;
}.

Record Workout := {
  startTime : option Z;
  exerciseStartTime : option Z;
  endTime : option Z;
  phase : Phase;
  currentExerciseIndex : nat;
  exercises : list Exercise;
  active : Active;
}.

Definition Phase_eqb (p q : Phase) : bool :=
  match p, q with
  | READY, READY | IN_SET, IN_SET | IN_REST, IN_REST => true
  | _, _ => false
  end.

Definition newWorkout : Workout := {|
  startTime := None;
  exerciseStartTime := None;
  endTime := None;
  phase := READY;
  currentExerciseIndex := 0;
  exercises := [ {| id := "ex-1"; name := "Exercise 1"; sets := [] |} ];
  active := {| active_setStart := None; active_restStart := None |};
|}.

(** ** Derived totals *)

Record Totals := {
  workMs : Z;
  restMs : Z;
  gymMs : Z;
}.

(** The body of the inner loop of [calcTotals] and [exerciseTotals]: the two
    accumulators after one more [SetLog]. *)
Definition addSet (acc : Z * Z) (s : SetLog) : Z * Z :=
  let workMs :=
    match setStart s, setEnd s with
    | Some a, Some b => fst acc + (b - a)
    | _, _ => fst acc
    end in
  let restMs :=
    match restStart s, restEnd s with
    | Some a, Some b => snd acc + (b - a)
    | _, _ => snd acc
    end in
  (workMs, restMs).

(** [calcTotals workout nowT]: [nowT] is what [now()] returns, should the
    function call it (it does when [endTime] is [null]). *)
Definition calcTotals (workout : Workout) (nowT : Z) : Totals :=
  let acc :=
    fold_left (fun acc ex => fold_left addSet (sets ex) acc)
      (exercises workout) (0, 0) in
  let end_ := nullish (endTime workout) nowT in
  let gymMs :=
    if truthy (startTime workout)
    then end_ - nullish (startTime workout) 0
    else 0 in
  {| workMs := fst acc; restMs := snd acc; gymMs := gymMs |}.

(** ** The event handlers *)

Inductive Result :=
| Ok (w : Workout)
| TypeError.

Definition noActive : Active :=
  {| active_setStart := None; active_restStart := None |}.

(** [{ ...ex, sets }] *)
Definition withSets (ex : Exercise) (sets : list SetLog) : Exercise :=
  {| id := id ex; name := name ex; sets := sets |}.

(** [{ ...last, restEnd }] *)
Definition withRestEnd (last : SetLog) (restEnd : option Z) : SetLog :=
  {| setStart := setStart last; setEnd := setEnd last;
     restStart := restStart last; restEnd := restEnd |}.

Definition startWorkout (workout : Workout) (t : Z) : Result :=
  if truthy (startTime workout) then Ok workout
  else
    Ok {| startTime := Some t;
          exerciseStartTime := None;
          endTime := None;
          phase := READY;
          currentExerciseIndex := currentExerciseIndex workout;
          exercises := exercises workout;
          active := noActive |}.

Definition startSet (workout : Workout) (t : Z) : Result :=
  if negb (truthy (startTime workout)) || truthy (endTime workout)
     || negb (Phase_eqb (phase workout) READY)
  then Ok workout
  else
    let shouldStartExerciseTimer := negb (truthy (exerciseStartTime workout)) in
    Ok {| startTime := startTime workout;
          exerciseStartTime :=
            if shouldStartExerciseTimer then Some t
            else exerciseStartTime workout;
          endTime := endTime workout;
          phase := IN_SET;
          currentExerciseIndex := currentExerciseIndex workout;
          exercises := exercises workout;
          active := {| active_setStart := Some t; active_restStart := None |} |}.

Definition endSetStartRest (workout : Workout) (t : Z) : Result :=
  if negb (truthy (startTime workout)) || truthy (endTime workout)
     || negb (Phase_eqb (phase workout) IN_SET)
  then Ok workout
  else
    match exercises workout !! currentExerciseIndex workout with
    | None => TypeError
    | Some ex =>
        let sets :=
          sets ex ++
          [ {| setStart := active_setStart (active workout);
               setEnd := Some t;
               restStart := Some t;
               restEnd := None |} ] in
        let exercises :=
          <[currentExerciseIndex workout := withSets ex sets]>
            (exercises workout) in
        Ok {| startTime := startTime workout;
              exerciseStartTime := exerciseStartTime workout;
              endTime := endTime workout;
              phase := IN_REST;
              currentExerciseIndex := currentExerciseIndex workout;
              exercises := exercises;
              active := {| active_setStart := None;
                           active_restStart := Some t |} |}
    end.

Definition endRestStartSet (workout : Workout) (t : Z) : Result :=
  if negb (truthy (startTime workout)) || truthy (endTime workout)
     || negb (Phase_eqb (phase workout) IN_REST)
  then Ok workout
  else
    match exercises workout !! currentExerciseIndex workout with
    | None => TypeError
    | Some ex =>
        let sets := sets ex in
        if (length sets =? 0)%nat then Ok workout
        else
          let sets :=
            alter (fun last => withRestEnd last (Some t))
              (length sets - 1)%nat sets in
          let exercises :=
            <[currentExerciseIndex workout := withSets ex sets]>
              (exercises workout) in
          Ok {| startTime := startTime workout;
                exerciseStartTime := exerciseStartTime workout;
                endTime := endTime workout;
                phase := IN_SET;
                currentExerciseIndex := currentExerciseIndex workout;
                exercises := exercises;
                active := {| active_setStart := Some t;
                             active_restStart := None |} |}
    end.

(** The state [w] of [nextExercise] after its "force-finish" branch. *)
Definition nextExercise_force (w : Workout) (t : Z) : Result :=
  match phase w with
  | IN_SET =>
      match exercises w !! currentExerciseIndex w with
      | None => TypeError
      | Some ex =>
          let sets :=
            sets ex ++
            [ {| setStart := Some (nullish (active_setStart (active w)) t);
                 setEnd := Some t;
                 restStart := None;
                 restEnd := None |} ] in
          let exercises :=
            <[currentExerciseIndex w := withSets ex sets]> (exercises w) in
          Ok {| startTime := startTime w;
                exerciseStartTime := exerciseStartTime w;
                endTime := endTime w;
                phase := READY;
                currentExerciseIndex := currentExerciseIndex w;
                exercises := exercises;
                active := noActive |}
      end
  | IN_REST =>
      match exercises w !! currentExerciseIndex w with
      | None => TypeError
      | Some ex =>
          let sets := sets ex in
          let exercises :=
            if (0 <? length sets)%nat then
              let sets :=
                alter (fun last =>
                         withRestEnd last (Some (nullish (restEnd last) t)))
                  (length sets - 1)%nat sets in
              <[currentExerciseIndex w := withSets ex sets]> (exercises w)
            else exercises w in
          Ok {| startTime := startTime w;
                exerciseStartTime := exerciseStartTime w;
                endTime := endTime w;
                phase := READY;
                currentExerciseIndex := currentExerciseIndex w;
                exercises := exercises;
                active := noActive |}
      end
  | READY => Ok w
  end.

Definition nextExercise (workout : Workout) (t : Z) : Result :=
  if negb (truthy (startTime workout)) || truthy (endTime workout)
  then Ok workout
  else
    match nextExercise_force workout t with
    | TypeError => TypeError
    | Ok w =>
        let n := Z.of_nat (length (exercises w)) + 1 in
        let exercises :=
          exercises w ++
          [ {| id := "ex-" +:+ String_of n;
               name := "Exercise " +:+ String_of n;
               sets := [] |} ] in
        Ok {| startTime := startTime w;
              exerciseStartTime := None;
              endTime := endTime w;
              phase := READY;
              currentExerciseIndex := (length exercises - 1)%nat;
              exercises := exercises;
              active := noActive |}
    end.

(** The [exercises] of [w] in [finishWorkout] after its branch on the phase;
    [t] is the reading of [now()] inside the branch, and [None] stands for the
    [TypeError] of [ex.sets] on an index out of range.  [last sets] is
    [sets[sets.length - 1]] under the test [sets.length > 0]. *)
Definition finishWorkout_force (w : Workout) (t : Z) : option (list Exercise) :=
  match phase w with
  | IN_SET =>
      match exercises w !! currentExerciseIndex w with
      | None => None
      | Some ex =>
          let sets :=
            sets ex ++
            [ {| setStart := Some (nullish (active_setStart (active w)) t);
                 setEnd := Some t;
                 restStart := Some t;
                 restEnd := Some t |} ] in
          Some (<[currentExerciseIndex w := withSets ex sets]> (exercises w))
      end
  | IN_REST =>
      match exercises w !! currentExerciseIndex w with
      | None => None
      | Some ex =>
          let sets := sets ex in
          match last sets with
          | Some last =>
              match restStart last, restEnd last with
              | Some _, None =>
                  let sets :=
                    alter (fun last => withRestEnd last (Some t))
                      (length sets - 1)%nat sets in
                  Some (<[currentExerciseIndex w := withSets ex sets]>
                          (exercises w))
              | _, _ => Some (exercises w)
              end
          | None => Some (exercises w)
          end
      end
  | READY => Some (exercises w)
  end.

(** [t] is the reading inside the branch, [tEnd] the one stored in
    [endTime]. *)
Definition finishWorkout (workout : Workout) (t tEnd : Z) : Result :=
  if negb (truthy (startTime workout)) || truthy (endTime workout)
  then Ok workout
  else
    match finishWorkout_force workout t with
    | None => TypeError
    | Some exercises =>
        Ok {| startTime := startTime workout;
              exerciseStartTime := exerciseStartTime workout;
              endTime := Some tEnd;
              phase := READY;
              currentExerciseIndex := currentExerciseIndex workout;
              exercises := exercises;
              active := noActive |}
    end.

Definition resetAll (workout : Workout) : Result := Ok newWorkout.

(** ** Traces of operations *)

(** One user action, with the readings of the time source that the handler
    obtains while it runs.  [finishWorkout] reads the clock inside its branch
    on the phase, when the branch logs something, and once more for
    [endTime]: [Finish t tEnd] carries both, and [t] goes unused when the
    branch takes no reading. *)
Inductive Op :=
| Start (t : Z)
| StartSet (t : Z)
| EndSetStartRest (t : Z)
| EndRestStartSet (t : Z)
| NextExercise (t : Z)
| Finish (t tEnd : Z)
| Reset.

Definition step (w : Workout) (o : Op) : Result :=
  match o with
  | Start t => startWorkout w t
  | StartSet t => startSet w t
  | EndSetStartRest t => endSetStartRest w t
  | EndRestStartSet t => endRestStartSet w t
  | NextExercise t => nextExercise w t
  | Finish t tEnd => finishWorkout w t tEnd
  | Reset => resetAll w
  end.

Fixpoint run (w : Workout) (ops : list Op) : Result :=
  match ops with
  | [] => Ok w
  | o :: ops' =>
      match step w o with
      | Ok w' => run w' ops'
      | TypeError => TypeError
      end
  end.

(** The states that some sequence of operations reaches from the fresh
    session. *)
Definition reachable (w : Workout) : Prop :=
  exists ops, run newWorkout ops = Ok w.

(** The readings of an operation, in the order the handler takes them. *)
Definition readings (o : Op) : list Z :=
  match o with
  | Start t | StartSet t | EndSetStartRest t | EndRestStartSet t
  | NextExercise t => [t]
  | Finish t tEnd => [t; tEnd]
  | Reset => []
  end.

(** The latest reading after an operation. *)
Definition latest (T : Z) (o : Op) : Z :=
  match o with
  | Start t | StartSet t | EndSetStartRest t | EndRestStartSet t
  | NextExercise t => t
  | Finish _ tEnd => tEnd
  | Reset => T
  end.

(** A time source that never goes back: the readings of the whole trace are
    non-decreasing. *)
Fixpoint nondecreasing (l : list Z) : Prop :=
  match l with
  | [] => True
  | a :: l' =>
      match l' with
      | [] => True
      | b :: _ => a <= b /\ nondecreasing l'
      end
  end.

Definition monotone_trace (ops : list Op) : Prop :=
  nondecreasing (concat (map readings ops)).

(** The same for a time source that counts from 0: no reading is negative
    and none is below an earlier one. *)
Definition clock_trace (ops : list Op) : Prop :=
  nondecreasing (0 :: concat (map readings ops)).

(** ** Preconditions: the guards of the handlers and the stated ones *)

(** The condition under which a handler returns at once, as the source tests
    it (truthiness of [startTime] and [endTime]). *)
Definition guard_returns (o : Op) (w : Workout) : bool :=
  match o with
  | Start _ => truthy (startTime w)
  | StartSet _ =>
      negb (truthy (startTime w)) || truthy (endTime w)
      || negb (Phase_eqb (phase w) READY)
  | EndSetStartRest _ =>
      negb (truthy (startTime w)) || truthy (endTime w)
      || negb (Phase_eqb (phase w) IN_SET)
  | EndRestStartSet _ =>
      negb (truthy (startTime w)) || truthy (endTime w)
      || negb (Phase_eqb (phase w) IN_REST)
  | NextExercise _ | Finish _ _ =>
      negb (truthy (startTime w)) || truthy (endTime w)
  | Reset => false
  end.

(** [present o]: the optional timestamp is not [null]. *)
Definition present (o : option Z) : bool :=
  match o with
  | Some _ => true
  | None => false
  end.

(** The precondition of each operation in the words of the specification,
    where "started" is [startTime] present and "ended" is [endTime] present.
    It is compared with [guard_returns] below. *)
Definition stated_precondition (o : Op) (w : Workout) : bool :=
  match o with
  | Start _ => negb (present (startTime w))
  | StartSet _ =>
      present (startTime w) && negb (present (endTime w))
      && Phase_eqb (phase w) READY
  | EndSetStartRest _ => Phase_eqb (phase w) IN_SET
  | EndRestStartSet _ =>
      Phase_eqb (phase w) IN_REST
      && match exercises w !! currentExerciseIndex w with
         | Some ex => (1 <=? length (sets ex))%nat
         | None => false
         end
  | NextExercise _ | Finish _ _ =>
      present (startTime w) && negb (present (endTime w))
  | Reset => true
  end.

(** ** Predicates on states *)

(** The current exercise is the last one of a non-empty list. *)
Definition index_last (w : Workout) : Prop :=
  S (currentExerciseIndex w) = length (exercises w).

(** The relation between [phase] and [active]. *)
Definition active_consistent (w : Workout) : Prop :=
  (phase w = READY <->
     active_setStart (active w) = None /\ active_restStart (active w) = None)
  /\ (phase w = IN_SET \/ phase w = IN_REST ->
      (is_Some (active_setStart (active w))
       /\ active_restStart (active w) = None)
      \/ (active_setStart (active w) = None
          /\ is_Some (active_restStart (active w)))).

(** A phase other than [READY] is only entered through a guard that has seen
    a truthy [startTime]. *)
Definition phase_started (w : Workout) : Prop :=
  phase w = READY \/ truthy (startTime w) = true.

(** ** Logged time *)

Definition liftMs (s : SetLog) : Z :=
  match setStart s, setEnd s with
  | Some a, Some b => b - a
  | _, _ => 0
  end.

Definition restDuration (s : SetLog) : Z :=
  match restStart s, restEnd s with
  | Some a, Some b => b - a
  | _, _ => 0
  end.

(** Lifting plus resting time logged in a list of records, in a list of
    exercises. *)
Definition setsMs (l : list SetLog) : Z :=
  foldr (fun s acc => liftMs s + restDuration s + acc) 0 l.

Definition loggedMs (exs : list Exercise) : Z :=
  foldr (fun ex acc => setsMs (sets ex) + acc) 0 exs.

(** Nothing has been logged and the session is not running. *)
Definition idle (w : Workout) : Prop :=
  loggedMs (exercises w) = 0 /\ phase w = READY /\ endTime w = None.

(** The interval that is open in the current phase starts at or after the
    frontier [f] and at or before the latest reading [T]. *)
Definition open_interval (f T : Z) (w : Workout) : Prop :=
  match phase w with
  | READY => True
  | IN_SET =>
      exists a, active_setStart (active w) = Some a /\ f <= a /\ a <= T
  | IN_REST =>
      exists ex l r a,
        exercises w !! currentExerciseIndex w = Some ex
        /\ sets ex = l ++ [r]
        /\ restStart r = Some a /\ restEnd r = None
        /\ f <= a /\ a <= T
  end.

(** A session started at [s]: the logged time fits between [s] and a frontier
    [f] that no closed interval passes. *)
Definition running (T : Z) (w : Workout) (s : Z) : Prop :=
  exists f,
    s <= f /\ f <= T
    /\ loggedMs (exercises w) <= f - s
    /\ open_interval f T w
    /\ (forall e, endTime w = Some e -> e <> 0 -> f <= e).

Definition accounted (T : Z) (w : Workout) : Prop :=
  index_last w
  /\ (truthy (startTime w) = false -> idle w)
  /\ (forall s, startTime w = Some s -> s <> 0 -> running T w s).

(** No stored [startTime] is negative and no stored [endTime] is 0 or
    negative. *)
Definition stored_positive (w : Workout) : Prop :=
  (forall s, startTime w = Some s -> 0 <= s)
  /\ (forall e, endTime w = Some e -> 0 < e).

(** ** Sample states *)

(** A session in its first rest, used to instantiate the statements below. *)
Definition resting_session : Workout := {|
  startTime := Some 1000;
  exerciseStartTime := Some 2000;
  endTime := None;
  phase := IN_REST;
  currentExerciseIndex := 0;
  exercises :=
    [ {| id := "ex-1"; name := "Exercise 1";
         sets := [ {| setStart := Some 2000; setEnd := Some 9000;
                      restStart := Some 9000; restEnd := None |} ] |} ];
  active := {| active_setStart := None; active_restStart := Some 9000 |};
|}.

(** A session in its first set. *)
Definition lifting_session : Workout := {|
  startTime := Some 1000;
  exerciseStartTime := Some 2000;
  endTime := None;
  phase := IN_SET;
  currentExerciseIndex := 0;
  exercises := [ {| id := "ex-1"; name := "Exercise 1"; sets := [] |} ];
  active := {| active_setStart := Some 2000; active_restStart := None |};
|}.

(** A finished session, with one set and a rest of length zero. *)
Definition finished_session : Workout := {|
  startTime := Some 1000;
  exerciseStartTime := Some 2000;
  endTime := Some 9001;
  phase := READY;
  currentExerciseIndex := 0;
  exercises :=
    [ {| id := "ex-1"; name := "Exercise 1";
         sets := [ {| setStart := Some 2000; setEnd := Some 9000;
                      restStart := Some 9000; restEnd := Some 9000 |} ] |} ];
  active := noActive;
|}.

(** The state after start() with a clock that reads 0. *)
Definition started_at_zero : Workout := {|
  startTime := Some 0;
  exerciseStartTime := None;
  endTime := None;
  phase := READY;
  currentExerciseIndex := 0;
  exercises := [ {| id := "ex-1"; name := "Exercise 1"; sets := [] |} ];
  active := noActive;
|}.

(** ** Display helpers and derived values of the component *)

Definition getPhaseLabel (phase : Phase) : string :=
  match phase with
  | IN_SET => "Lifting"
  | IN_REST => "Resting"
  | READY => "Ready"
  end.

Definition getPhaseColor (phase : Phase) : string :=
  match phase with
  | IN_SET => "#22c55e"
  | IN_REST => "#ef4444"
  | READY => "white"
  end.

(** [workout.exercises[workout.currentExerciseIndex].sets.length]; [None] is
    the [TypeError] of [.sets] on an index out of range. *)
Definition getSetCountForDisplay (workout : Workout) : option nat :=
  match exercises workout !! currentExerciseIndex workout with
  | Some ex => Some (length (sets ex))
  | None => None
  end.

(** The value [{ workMs, restMs }] of [exerciseTotals]. *)
Record ExerciseTotals := {
  exWorkMs : Z;
  exRestMs : Z;
}.

Definition exerciseTotals (ex : Exercise) : ExerciseTotals :=
  let acc := fold_left addSet (sets ex) (0, 0) in
  {| exWorkMs := fst acc; exRestMs := snd acc |}.

(** The live timers of the component body.  Each of the three expressions
    calls [now()] for itself, so one render reads the clock for
    [workoutElapsed], then for [exerciseElapsed], and for [phaseElapsed]
    inside [useMemo], which computes it again only when [workout] or [tick]
    has changed and otherwise keeps the value of an earlier render of the
    same [workout].  [nowT] is the reading that the expression gets. *)
Definition workoutElapsed (workout : Workout) (nowT : Z) : Z :=
  if truthy (startTime workout)
  then nullish (endTime workout) nowT - nullish (startTime workout) 0
  else 0.

Definition exerciseElapsed (workout : Workout) (nowT : Z) : Z :=
  if truthy (exerciseStartTime workout)
  then nullish (endTime workout) nowT - nullish (exerciseStartTime workout) 0
  else 0.

Definition phaseElapsed (workout : Workout) (nowT : Z) : Z :=
  if truthy (endTime workout) then 0
  else
    match phase workout, active_setStart (active workout),
          active_restStart (active workout) with
    | IN_SET, Some a, _ => nowT - a
    | IN_REST, _, Some a => nowT - a
    | _, _, _ => 0
    end.

(** The [type] of a primary action. *)
Inductive ActionType := type_start | type_set | type_rest.

(** The object [{ label, action, type }] of [primaryAction]. *)
Record PrimaryAction := {
  label : string;
  action : Workout -> Z -> Result;
  type : ActionType;
}.

Definition primaryAction (workout : Workout) : option PrimaryAction :=
  if negb (truthy (startTime workout)) || truthy (endTime workout) then None
  else
    match phase workout with
    | READY =>
        Some {| label := "Start Set"; action := startSet;
                type := type_start |}
    | IN_SET =>
        Some {| label := "End Set → Start Rest"; action := endSetStartRest;
                type := type_set |}
    | IN_REST =>
        Some {| label := "End Rest → Start Set"; action := endRestStartSet;
                type := type_rest |}
    end.

(** [if (workout.endTime)]: the component renders the summary screen, whose
    only button is "New Workout", instead of the main screen. *)
Definition showsSummary (workout : Workout) : bool :=
  truthy (endTime workout).

(** The buttons that the render of [workout] wires to each operation: the
    primary button, "Next Exercise" unless [disabled={!workout.startTime}],
    the last button with [workout.startTime ? finishWorkout : startWorkout],
    and "New Workout" on the summary screen. *)
Definition offered (workout : Workout) (o : Op) : bool :=
  match o with
  | Reset => showsSummary workout
  | Start _ =>
      negb (showsSummary workout) && negb (truthy (startTime workout))
  | Finish _ _ =>
      negb (showsSummary workout) && truthy (startTime workout)
  | NextExercise _ =>
      negb (showsSummary workout) && truthy (startTime workout)
  | StartSet _ =>
      negb (showsSummary workout)
      && match primaryAction workout with
         | Some a => match type a with type_start => true | _ => false end
         | None => false
         end
  | EndSetStartRest _ =>
      negb (showsSummary workout)
      && match primaryAction workout with
         | Some a => match type a with type_set => true | _ => false end
         | None => false
         end
  | EndRestStartSet _ =>
      negb (showsSummary workout)
      && match primaryAction workout with
         | Some a => match type a with type_rest => true | _ => false end
         | None => false
         end
  end.

(** The start of the open interval is stored for the phase. *)
Definition active_start_present (w : Workout) : Prop :=
  (phase w = IN_SET -> is_Some (active_setStart (active w)))
  /\ (phase w = IN_REST -> is_Some (active_restStart (active w))).

(** The time logged in the current exercise [cur] fits between the start
    of its timer and a frontier [f] that the open interval does not
    precede. *)
Definition exercise_accounted (T : Z) (w : Workout) : Prop :=
  exists pre cur,
    exercises w = pre ++ [cur]
    /\ (exerciseStartTime w = None -> sets cur = [])
    /\ (forall x, exerciseStartTime w = Some x ->
        exists f,
          x <= f /\ f <= T /\ setsMs (sets cur) <= f - x
          /\ match phase w with
             | READY => True
             | IN_SET =>
                 exists a,
                   active_setStart (active w) = Some a /\ f <= a /\ a <= T
             | IN_REST =>
                 exists l r a,
                   sets cur = l ++ [r]
                   /\ restStart r = Some a /\ restEnd r = None
                   /\ f <= a /\ a <= T
             end
          /\ (forall e, endTime w = Some e -> f <= e)).

(** The sum of a list of durations. *)
Definition sumZ (l : list Z) : Z := foldr Z.add 0 l.

(** ** Predicates on the log *)

(** A record whose rest, if it has begun, has ended. *)
Definition closed (r : SetLog) : Prop :=
  is_Some (restStart r) -> is_Some (restEnd r).

Definition all_closed (exs : list Exercise) : Prop :=
  Forall (fun ex => Forall closed (sets ex)) exs.

(** Every record is closed, except, in phase [IN_REST], the last record of
    the last exercise, whose rest is open. *)
Definition rest_log (w : Workout) : Prop :=
  match phase w with
  | IN_REST =>
      exists pre cur l r a,
        exercises w = pre ++ [cur] /\ sets cur = l ++ [r]
        /\ all_closed pre /\ Forall closed l
        /\ restStart r = Some a /\ restEnd r = None
  | _ => all_closed (exercises w)
  end.

(** [r'] holds the timestamps of [r], and possibly a [restEnd] that [r]
    lacked. *)
Definition keeps (r r' : SetLog) : Prop :=
  setStart r' = setStart r /\ setEnd r' = setEnd r
  /\ restStart r' = restStart r
  /\ (restEnd r' = restEnd r \/ restEnd r = None).

Definition sets_extend (l l' : list SetLog) : Prop :=
  forall j r, l !! j = Some r -> exists r', l' !! j = Some r' /\ keeps r r'.

(** Every exercise and record of [exs] is still in [exs'], at the same
    place. *)
Definition log_extends (exs exs' : list Exercise) : Prop :=
  forall i ex,
    exs !! i = Some ex ->
    exists ex',
      exs' !! i = Some ex' /\ id ex' = id ex /\ name ex' = name ex
      /\ sets_extend (sets ex) (sets ex').

(** A session that has ended is started, in phase [READY], with no active
    interval. *)
Definition ended_ready (w : Workout) : Prop :=
  truthy (endTime w) = true ->
  truthy (startTime w) = true /\ phase w = READY /\ active w = noActive.

(** The exercise at place [i] is numbered [i + 1]. *)
Definition numbered (exs : list Exercise) : Prop :=
  forall i ex,
    exs !! i = Some ex ->
    id ex = "ex-" +:+ String_of (Z.of_nat i + 1)
    /\ name ex = "Exercise " +:+ String_of (Z.of_nat i + 1).

(** A record of a clock that never goes back, logged by the latest reading
    [T]: the set has its two ends in order, a rest begins when the set ends
    and, when closed, ends after it began. *)
Definition ordered_record (T : Z) (r : SetLog) : Prop :=
  exists a b,
    setStart r = Some a /\ setEnd r = Some b /\ a <= b /\ b <= T
    /\ match restStart r, restEnd r with
       | None, None => True
       | Some c, None => c = b
       | Some c, Some d => c = b /\ c <= d /\ d <= T
       | None, Some _ => False
       end.

Definition ordered_log (T : Z) (w : Workout) : Prop :=
  Forall (fun ex => Forall (ordered_record T) (sets ex)) (exercises w)
  /\ (phase w = IN_SET ->
      exists a, active_setStart (active w) = Some a /\ a <= T).

(** The timers of a started session at the latest reading [T]: the exercise
    started after the session, the open interval after the exercise, and a
    stored [endTime] after both. *)
Definition timers (T : Z) (w : Workout) : Prop :=
  (truthy (startTime w) = false ->
   exerciseStartTime w = None /\ phase w = READY /\ endTime w = None)
  /\ (forall s, startTime w = Some s -> s <> 0 ->
      0 < s /\ s <= T
      /\ (forall x, exerciseStartTime w = Some x -> s <= x /\ x <= T)
      /\ (phase w = IN_SET ->
          exists a x, active_setStart (active w) = Some a
                      /\ exerciseStartTime w = Some x /\ x <= a /\ a <= T)
      /\ (phase w = IN_REST ->
          exists a x, active_restStart (active w) = Some a
                      /\ exerciseStartTime w = Some x /\ x <= a /\ a <= T)
      /\ (forall e, endTime w = Some e ->
          s <= e /\ e <= T /\ phase w = READY
          /\ forall x, exerciseStartTime w = Some x -> x <= e)).

(** * Part II: properties *)

(** ** Basic facts *)

Lemma Phase_eqb_eq p q : Phase_eqb p q = true <-> p = q.
Proof. destruct p, q; simpl; split; congruence. Qed.

Lemma truthy_true o : truthy o = true -> exists s, o = Some s /\ s <> 0.
Proof.
  destruct o as [s|]; simpl; [|discriminate].
  destruct (Z.eqb_spec s 0); [discriminate | eauto].
Qed.

Lemma truthy_Some s : s <> 0 -> truthy (Some s) = true.
Proof. intros H; simpl. by destruct (Z.eqb_spec s 0). Qed.

Lemma falsy_Some o e : truthy o = false -> o = Some e -> e = 0.
Proof.
  intros H ->. simpl in H. destruct (Z.eqb_spec e 0); [done|discriminate].
Qed.

Lemma truthy_present o : o <> Some 0 -> truthy o = present o.
Proof.
  destruct o as [t|]; simpl; [|done].
  intros H. destruct (Z.eqb_spec t 0); [subst; done | done].
Qed.

(** Splits the guards and branches of an unfolded handler. *)
Ltac handler_cases :=
  repeat match goal with
    | H : Ok _ = Ok _ |- _ => inversion H; subst; clear H
    | H : TypeError = Ok _ |- _ => discriminate H
    | H : Some _ = Some _ |- _ => inversion H; subst; clear H
    | H : None = Some _ |- _ => discriminate H
    | H : context [if ?b then _ else _] |- _ => destruct b eqn:?
    | H : context [match ?x with _ => _ end] |- _ => destruct x eqn:?
    end.

(** Turns a guard that did not fire into its three facts. *)
Ltac guard_facts H :=
  repeat match type of H with
    | _ || _ = false =>
        let H1 := fresh "Hg" in
        apply orb_false_iff in H; destruct H as [H1 H]; guard_facts H1
    | negb _ = false => apply negb_false_iff in H
    | Phase_eqb _ _ = true => apply Phase_eqb_eq in H
    end.

(** The guard has seen a falsy [endTime]: a stored one can only be 0. *)
Ltac not_ended :=
  let e := fresh "e" in
  let He := fresh "He" in
  let Hne := fresh "Hne" in
  intros e He Hne; simpl in He;
  match goal with
  | Hf : truthy (endTime _) = false |- _ =>
      destruct (Hne (falsy_Some _ _ Hf He))
  end.

(** Any property that every handler preserves holds along a run. *)
Lemma run_preserves (P : Workout -> Prop) :
  (forall w o w', P w -> step w o = Ok w' -> P w') ->
  forall ops w w', P w -> run w ops = Ok w' -> P w'.
Proof.
  intros Hstep ops; induction ops as [|o ops IH]; intros w w' HP Hrun.
  - simpl in Hrun. by inversion Hrun; subst.
  - simpl in Hrun. destruct (step w o) as [w1|] eqn:E; [|discriminate].
    eapply IH; [|exact Hrun]. eapply Hstep; eauto.
Qed.

Lemma reachable_ind_step (P : Workout -> Prop) :
  P newWorkout ->
  (forall w o w', P w -> step w o = Ok w' -> P w') ->
  forall w, reachable w -> P w.
Proof.
  intros H0 Hstep w [ops Hrun]. eapply run_preserves; eauto.
Qed.

Lemma run_app ops1 ops2 w w1 :
  run w ops1 = Ok w1 -> run w (ops1 ++ ops2) = run w1 ops2.
Proof.
  revert w; induction ops1 as [|o ops1 IH]; intros w H; simpl in *.
  - by inversion H.
  - destruct (step w o); [by apply IH | discriminate].
Qed.

Lemma nondecreasing_tail a l : nondecreasing (a :: l) -> nondecreasing l.
Proof. destruct l; simpl; tauto. Qed.

Lemma nondecreasing_from_head l :
  nondecreasing l -> nondecreasing (hd 0 l :: l).
Proof. destruct l as [|a l]; simpl; [done|]. intros H. split; [lia|done]. Qed.

Lemma nondecreasing_latest T o rest :
  nondecreasing (T :: readings o ++ rest) ->
  nondecreasing (T :: readings o)
  /\ T <= latest T o
  /\ nondecreasing (latest T o :: rest).
Proof.
  destruct o; simpl; try (intros [? ?]; split_and!; done || lia).
  - intros (? & ? & ?). split_and!; done || lia.
  - intros H. split_and!; done || lia.
Qed.

(** ** Invariants of the reachable states *)

Lemma index_last_step w o w' :
  index_last w -> step w o = Ok w' -> index_last w'.
Proof.
  unfold index_last. intros Hw Hs.
  destruct o; simpl in Hs;
    unfold startWorkout, startSet, endSetStartRest, endRestStartSet,
      nextExercise, nextExercise_force, finishWorkout, finishWorkout_force,
      resetAll in Hs;
    handler_cases; simpl in *;
    rewrite ?length_app, ?length_insert; simpl; try done; try lia.
Qed.

Lemma reachable_index_last w : reachable w -> index_last w.
Proof.
  apply reachable_ind_step; [reflexivity | apply index_last_step].
Qed.

Lemma index_last_lookup w :
  index_last w ->
  exists ex, exercises w !! currentExerciseIndex w = Some ex
             /\ last (exercises w) = Some ex.
Proof.
  unfold index_last. intros H.
  destruct (exercises w !! currentExerciseIndex w) as [ex|] eqn:E.
  - exists ex. split; [done|].
    rewrite last_lookup. rewrite <- H. simpl. exact E.
  - apply lookup_ge_None in E. lia.
Qed.

(** No handler raises on a state whose index is in range. *)
Lemma step_no_TypeError w o :
  index_last w -> exists w', step w o = Ok w'.
Proof.
  intros Hw. destruct (index_last_lookup w Hw) as (ex & Hex & _).
  destruct o; simpl;
    unfold startWorkout, startSet, endSetStartRest, endRestStartSet,
      nextExercise, nextExercise_force, finishWorkout, finishWorkout_force,
      resetAll;
    destruct (phase w); simpl; rewrite ?Hex; simpl;
    repeat match goal with
      | |- context [if ?b then _ else _] => destruct b
      | |- context [match last ?x with _ => _ end] => destruct (last x)
      | |- context [match restStart ?x with _ => _ end] =>
          destruct (restStart x)
      | |- context [match restEnd ?x with _ => _ end] => destruct (restEnd x)
      end; eauto.
Qed.

Lemma active_consistent_step w o w' :
  active_consistent w -> step w o = Ok w' -> active_consistent w'.
Proof.
  unfold active_consistent. intros Hw Hs.
  destruct o; simpl in Hs;
    unfold startWorkout, startSet, endSetStartRest, endRestStartSet,
      nextExercise, nextExercise_force, finishWorkout, resetAll in Hs;
    handler_cases; simpl in *; try exact Hw;
    (split;
     [split; [intros | intros [? ?]]; try done; try discriminate
     | intros [?|?]; try discriminate; eauto]).
Qed.

Lemma reachable_active_consistent w : reachable w -> active_consistent w.
Proof.
  apply reachable_ind_step; [|apply active_consistent_step].
  unfold active_consistent; simpl. split; [tauto|].
  intros [?|?]; discriminate.
Qed.

Lemma phase_started_step w o w' :
  phase_started w -> step w o = Ok w' -> phase_started w'.
Proof.
  unfold phase_started. intros Hw Hs.
  destruct o; simpl in Hs;
    unfold startWorkout, startSet, endSetStartRest, endRestStartSet,
      nextExercise, nextExercise_force, finishWorkout, resetAll in Hs;
    handler_cases; simpl in *; try exact Hw; try (by left);
    right; try assumption;
    match goal with
    | H : negb (truthy ?x) || _ || _ = false |- _ =>
        by destruct (truthy x)
    end.
Qed.

Lemma reachable_phase_started w : reachable w -> phase_started w.
Proof.
  apply reachable_ind_step; [by left | apply phase_started_step].
Qed.

(** ** The clock format *)

Lemma pad_two_digits s : 0 <= s < 100 -> pad s = two_digits s.
Proof.
  intros Hs.
  assert (Hall : forallb (fun k => String.eqb (pad (Z.of_nat k))
                                     (two_digits (Z.of_nat k)))
                   (seq 0 100) = true) by (vm_compute; reflexivity).
  rewrite forallb_forall in Hall.
  specialize (Hall (Z.to_nat s)).
  rewrite Z2Nat.id in Hall by lia.
  apply String.eqb_eq, Hall, in_seq. lia.
Qed.

(** The text of a duration that is not negative, with the quotients of
    [Z]. *)
Lemma msToClock_nonneg n :
  0 <= n ->
  msToClock n
  = String_of (n / 60000) +:+ ":" +:+ two_digits ((n / 1000) mod 60).
Proof.
  intros Hn. unfold msToClock.
  assert (Hq : 0 <= n / 1000) by (apply Z.div_pos; lia).
  rewrite Z.max_r by lia.
  rewrite Z.rem_mod_nonneg by lia.
  rewrite Z.div_div by lia.
  change (1000 * 60) with 60000.
  rewrite pad_two_digits; [reflexivity|].
  pose proof (Z.mod_pos_bound (n / 1000) 60). lia.
Qed.

(** *** Rounded quotients *)

Lemma round_half_even_near num den :
  0 <= num -> 0 < den ->
  2 * num - den <= 2 * den * round_half_even num den <= 2 * num + den.
Proof.
  intros Hn Hd. unfold round_half_even.
  pose proof (Z.div_mod num den ltac:(lia)) as Hdm.
  pose proof (Z.mod_pos_bound num den Hd) as Hr.
  destruct (Z.compare_spec (2 * (num mod den)) den);
    [destruct (Z.even (num / den))|..]; nia.
Qed.

Lemma round_half_even_nonneg num den :
  0 <= num -> 0 < den -> 0 <= round_half_even num den.
Proof.
  intros Hn Hd. unfold round_half_even.
  assert (0 <= num / den) by (apply Z.div_pos; lia).
  destruct (_ ?= _); [destruct (Z.even _)|..]; lia.
Qed.

(** A quotient [a / d] that is rounded to the nearest multiple of [2^-p],
    with [d < 2^(p+1)], keeps its integer part: the rounding error, at most
    [2^-(p+1)], is below [1 / d], the least distance of a quotient that is
    not an integer from the next integer. *)
Lemma floor_of_rounded a d p m :
  0 <= a -> 0 < d -> 0 <= p -> d < 2 ^ (p + 1) ->
  2 * (a * 2 ^ p) - d <= 2 * d * m <= 2 * (a * 2 ^ p) + d ->
  m / 2 ^ p = a / d.
Proof.
  intros Ha Hd Hp Hsp Hm.
  rewrite Z.pow_add_r, Z.pow_1_r in Hsp by lia.
  assert (HP : 0 < 2 ^ p) by (apply Z.pow_pos_nonneg; lia).
  pose proof (Z.div_mod a d ltac:(lia)) as Hdm.
  pose proof (Z.mod_pos_bound a d Hd) as Hr.
  set (k := a / d) in *. set (r := a mod d) in *. set (P := 2 ^ p) in *.
  symmetry. apply Z.div_unique with (r := m - k * P).
  - left. split.
    + destruct (Z.eq_dec r 0) as [Hr0|Hr0].
      * assert (Ha0 : a = d * k) by lia. nia.
      * nia.
    + nia.
  - lia.
Qed.

Lemma log2_quot_le a d : log2_quot a d <= Z.log2 a - Z.log2 d.
Proof. unfold log2_quot. destruct (_ <=? _); lia. Qed.

(** Below 2^53 the floor of the rounded quotient is the quotient of [Z]. *)
Lemma number_div_floor a d :
  0 <= a < 2 ^ 53 -> 0 < d -> Math_floor (number_div a d) = a / d.
Proof.
  intros [Ha Hb] Hd. unfold number_div, Math_floor.
  destruct (Z.eqb_spec a 0) as [->|Hne]; simpl; [by rewrite Z.shiftl_0_l|].
  rewrite Z.abs_eq, Z.sgn_pos, Z.mul_1_l by lia.
  pose proof (log2_quot_le a d) as Hl.
  assert (Hla : Z.log2 a < 53) by (apply Z.log2_lt_pow2; lia).
  pose proof (Z.log2_nonneg d) as Hld.
  set (e := log2_quot a d - 52) in *.
  assert (He : e <= - Z.log2 d) by lia.
  rewrite (Z.max_l 0 e), (Z.max_r 0 (- e)), Z.pow_0_r, Z.mul_1_r by lia.
  rewrite <- (Z.opp_involutive e) at 2.
  rewrite Z.shiftl_opp_r, Z.shiftr_div_pow2 by lia.
  apply floor_of_rounded; try lia.
  - destruct (Z.log2_spec d Hd) as [_ Hlt].
    eapply Z.lt_le_trans; [exact Hlt|].
    apply Z.pow_le_mono_r; lia.
  - apply round_half_even_near; [|lia].
    apply Z.mul_nonneg_nonneg; [lia|]. apply Z.pow_nonneg. lia.
Qed.

(** The quotient of a negative number, of any size, is not above 0. *)
Lemma number_div_floor_neg x d :
  x < 0 -> 0 < d -> Math_floor (number_div x d) <= 0.
Proof.
  intros Hx Hd. unfold number_div, Math_floor.
  destruct (Z.eqb_spec x 0) as [->|_]; [lia|]. cbn [mant expo].
  set (e := log2_quot (Z.abs x) d - 52).
  assert (Hm : 0 <= round_half_even (Z.abs x * 2 ^ Z.max 0 (- e))
                                    (d * 2 ^ Z.max 0 e)).
  { apply round_half_even_nonneg.
    - apply Z.mul_nonneg_nonneg; [lia|]. apply Z.pow_nonneg. lia.
    - apply Z.mul_pos_pos; [lia|]. apply Z.pow_pos_nonneg; lia. }
  rewrite Z.sgn_neg by lia.
  set (m := round_half_even _ _) in *.
  destruct (Z.le_gt_cases 0 e).
  - rewrite Z.shiftl_mul_pow2 by lia.
    assert (0 < 2 ^ e) by (apply Z.pow_pos_nonneg; lia). nia.
  - rewrite <- (Z.opp_involutive e), Z.shiftl_opp_r, Z.shiftr_div_pow2 by lia.
    assert (0 < 2 ^ (- e)) by (apply Z.pow_pos_nonneg; lia).
    apply Z.div_le_upper_bound; [lia|]. lia.
Qed.

(** On every [ms] below 2^53, negative ones of any size included, the
    source computes what [msToClock] computes with the quotients of [Z]. *)
Lemma msToClock_binary64_exact ms :
  ms < 2 ^ 53 -> msToClock_binary64 ms = Some (msToClock ms).
Proof.
  intros Hms. unfold msToClock_binary64, msToClock.
  assert (Ht : Z.max 0 (Math_floor (number_div ms 1000))
               = Z.max 0 (ms / 1000)).
  { destruct (Z.le_gt_cases 0 ms).
    - by rewrite number_div_floor by lia.
    - pose proof (number_div_floor_neg ms 1000 ltac:(lia) ltac:(lia)).
      assert (ms / 1000 < 0) by (apply Z.div_lt_upper_bound; lia). lia. }
  rewrite Ht. set (t := Z.max 0 (ms / 1000)).
  assert (Hb : 0 <= t < 2 ^ 53).
  { subst t. split; [lia|]. apply Z.max_lub_lt; [done|].
    apply Z.div_lt_upper_bound; lia. }
  rewrite number_div_floor by lia.
  assert (0 <= t / 60 < 2 ^ 53).
  { split; [apply Z.div_pos; lia|]. apply Z.div_lt_upper_bound; lia. }
  assert (0 <= Z.rem t 60 < 60).
  { rewrite Z.rem_mod_nonneg by lia. apply Z.mod_pos_bound. lia. }
  unfold Number_toString.
  rewrite !(proj2 (Z.ltb_lt _ _)) by lia. reflexivity.
Qed.

(** *** The minutes are printed in full *)

(** C8, as the claim states it, at [ms = 140737488355328992], a number
    (8796093022208062 * 2^4) above 2^53: [ms / 1000] is
    140737488355328.992, whose nearest binary64 value is 140737488355329,
    so the source counts one second more than [floor (ms / 1000)] and
    prints 09 seconds where the claim has 08. *)
Lemma msToClock_beyond_precision :
  0 <= 140737488355328992
  /\ 140737488355328992 = 8796093022208062 * 2 ^ 4
  /\ 8796093022208062 < 2 ^ 53
  /\ msToClock_binary64 140737488355328992 = Some "2345624805922:09"
  /\ String_of (140737488355328992 / 60000) +:+ ":"
     +:+ two_digits ((140737488355328992 / 1000) mod 60)
     = "2345624805922:08".
Proof. repeat split; vm_compute; congruence. Qed.

(** C8, amended. [msToClock] maps 0 to "0:00", 59000 to "0:59", 60000 to
    "1:00" and 3661000 to "61:01"; for every integer [n] with
    [0 <= n < 2^53] it renders all the decimal digits of the minute count
    [n / 60000] (there is no hour field to roll over into), then a colon,
    then the remaining seconds [(n / 1000) mod 60] on two digits. *)
Theorem msToClock_minutes_in_full :
  (msToClock_binary64 0 = Some "0:00"
   /\ msToClock_binary64 59000 = Some "0:59"
   /\ msToClock_binary64 60000 = Some "1:00"
   /\ msToClock_binary64 3661000 = Some "61:01")
  /\ forall n, 0 <= n < 2 ^ 53 ->
       msToClock_binary64 n
       = Some (String_of (n / 60000) +:+ ":"
               +:+ two_digits ((n / 1000) mod 60)).
Proof.
  split; [repeat split; vm_compute; reflexivity|].
  intros n [Hn Hb].
  rewrite msToClock_binary64_exact by lia.
  by rewrite msToClock_nonneg.
Qed.

Lemma msToClock_minutes_in_full_witness :
  0 <= 360000000000 < 2 ^ 53
  /\ msToClock_binary64 360000000000
     = Some (String_of (360000000000 / 60000) +:+ ":"
             +:+ two_digits ((360000000000 / 1000) mod 60)).
Proof.
  split; [lia|].
  apply (proj2 msToClock_minutes_in_full 360000000000). lia.
Defined.

(** C10. A negative duration is clamped to zero: for every [ms < 0],
    [msToClock ms] is "0:00". *)
Theorem msToClock_negative ms : ms < 0 -> msToClock ms = "0:00".
Proof.
  intros Hms. unfold msToClock.
  assert (Hq : ms / 1000 < 0) by (apply Z.div_lt_upper_bound; lia).
  rewrite Z.max_l by lia. reflexivity.
Qed.

Lemma msToClock_negative_witness : -1500 < 0 /\ msToClock (-1500) = "0:00".
Proof.
  split; [lia|]. apply (msToClock_negative (-1500)). lia.
Defined.

(** ** Phase, active interval and current exercise *)

Lemma resting_session_reachable : reachable resting_session.
Proof.
  exists [Start 1000; StartSet 2000; EndSetStartRest 9000]. reflexivity.
Defined.

Lemma lifting_session_reachable : reachable lifting_session.
Proof. exists [Start 1000; StartSet 2000]. reflexivity. Defined.

(** C1. In every state reachable from the fresh session by the seven
    operations, [phase] is [READY] exactly when [active.setStart] and
    [active.restStart] are both [null], and in the phases [IN_SET] and
    [IN_REST] exactly one of the two is set. *)
Theorem phase_ready_iff_no_active w :
  reachable w ->
  (phase w = READY <->
     active_setStart (active w) = None /\ active_restStart (active w) = None)
  /\ (phase w = IN_SET \/ phase w = IN_REST ->
      (is_Some (active_setStart (active w))
       /\ active_restStart (active w) = None)
      \/ (active_setStart (active w) = None
          /\ is_Some (active_restStart (active w)))).
Proof. apply reachable_active_consistent. Qed.

Lemma phase_ready_iff_no_active_witness :
  reachable resting_session
  /\ (phase resting_session = IN_SET \/ phase resting_session = IN_REST ->
      (is_Some (active_setStart (active resting_session))
       /\ active_restStart (active resting_session) = None)
      \/ (active_setStart (active resting_session) = None
          /\ is_Some (active_restStart (active resting_session)))).
Proof.
  split; [exact resting_session_reachable|].
  exact (proj2 (phase_ready_iff_no_active resting_session
                  resting_session_reachable)).
Defined.

(** C9. In every reachable state [currentExerciseIndex] is
    [exercises.length - 1]: the list is not empty and the current exercise is
    its last element, the one appended most recently. *)
Theorem current_exercise_is_last w :
  reachable w ->
  Z.of_nat (currentExerciseIndex w) = Z.of_nat (length (exercises w)) - 1
  /\ exists ex, exercises w !! currentExerciseIndex w = Some ex
                /\ last (exercises w) = Some ex.
Proof.
  intros Hw. apply reachable_index_last in Hw.
  split; [unfold index_last in Hw; lia | by apply index_last_lookup].
Qed.

Lemma current_exercise_is_last_witness :
  reachable resting_session
  /\ Z.of_nat (currentExerciseIndex resting_session)
     = Z.of_nat (length (exercises resting_session)) - 1.
Proof.
  split; [exact resting_session_reachable|].
  exact (proj1 (current_exercise_is_last resting_session
                  resting_session_reachable)).
Defined.

(** ** Finishing in the middle of a set *)

(** When [finishWorkout] runs in phase [IN_SET] on a reachable session
    that has not ended, it appends to the current exercise a record whose
    [restStart] and [restEnd] are both the reading [t] of the clock, a rest
    of length zero. *)
Lemma finish_in_set_zero_rest w t tEnd :
  reachable w -> phase w = IN_SET -> endTime w = None ->
  exists ex,
    exercises w !! currentExerciseIndex w = Some ex
    /\ finishWorkout w t tEnd
       = Ok {| startTime := startTime w;
               exerciseStartTime := exerciseStartTime w;
               endTime := Some tEnd;
               phase := READY;
               currentExerciseIndex := currentExerciseIndex w;
               exercises :=
                 <[currentExerciseIndex w :=
                     withSets ex
                       (sets ex ++
                        [ {| setStart :=
                               Some (nullish (active_setStart (active w)) t);
                             setEnd := Some t;
                             restStart := Some t;
                             restEnd := Some t |} ])]> (exercises w);
               active := noActive |}.
Proof.
  intros Hw Hph Hend.
  destruct (index_last_lookup w (reachable_index_last w Hw)) as (ex & Hex & _).
  exists ex. split; [exact Hex|].
  destruct (reachable_phase_started w Hw) as [Hr|Hst]; [congruence|].
  unfold finishWorkout, finishWorkout_force.
  rewrite Hst, Hend, Hph, Hex. reflexivity.
Qed.

(** The trace start, startSet, finish when start() reads a time other than
    0: the current exercise ends with exactly one record, whose
    [restEnd - restStart] is 0. *)
Lemma finish_in_set_started t0 t1 t tEnd :
  t0 <> 0 ->
  exists w3 ex r,
    run newWorkout [Start t0; StartSet t1; Finish t tEnd] = Ok w3
    /\ exercises w3 !! currentExerciseIndex w3 = Some ex
    /\ sets ex = [r]
    /\ restStart r = Some t /\ restEnd r = Some t /\ t - t = 0.
Proof.
  intros H0. apply Z.eqb_neq in H0.
  simpl. unfold startSet. simpl. rewrite H0. simpl.
  unfold finishWorkout, finishWorkout_force. simpl. rewrite H0. simpl.
  eexists _, _, _. repeat split; try reflexivity. lia.
Qed.

(** ** The guards on a stored reading of 0

    The guards test [workout.startTime] and [workout.endTime] for truthiness,
    so a stored reading of 0 counts as [null] there, while [calcTotals] and
    the elapsed-time expressions read [endTime] with [??] and take 0 for a
    timestamp.  The statements of this part evaluate the handlers on a clock
    that reads 0 when start() is called, and then state what holds when it
    reads anything else. *)

(** C7, on the trace as the claim gives it (start at t=0, startSet at t=0,
    endSetStartRest at 10000, endRestStartSet at 40000, finish at 50000):
    [startTime] is stored as 0, every later guard takes the session for not
    started, no record is logged and all three totals are 0. *)
Theorem basic_cycle_from_zero :
  run newWorkout
    [Start 0; StartSet 0; EndSetStartRest 10000; EndRestStartSet 40000;
     Finish 50000 50000]
  = Ok started_at_zero
  /\ forall nowT,
       calcTotals started_at_zero nowT
       = {| workMs := 0; restMs := 0; gymMs := 0 |}.
Proof. split; [reflexivity | intros nowT; reflexivity]. Qed.

(** The basic set/rest cycle of the scenario, moved to start at a reading
    [T] other than 0: two records and the totals 20000, 30000, 50000. *)
Lemma basic_cycle_shifted T :
  T <> 0 ->
  exists w,
    run newWorkout
      [Start T; StartSet T; EndSetStartRest (T + 10000);
       EndRestStartSet (T + 40000); Finish (T + 50000) (T + 50000)]
    = Ok w
    /\ (sets <$> exercises w)
       = [ [ {| setStart := Some T; setEnd := Some (T + 10000);
                restStart := Some (T + 10000);
                restEnd := Some (T + 40000) |};
             {| setStart := Some (T + 40000); setEnd := Some (T + 50000);
                restStart := Some (T + 50000);
                restEnd := Some (T + 50000) |} ] ]
    /\ forall nowT,
         calcTotals w nowT
         = {| workMs := 20000; restMs := 30000; gymMs := 50000 |}.
Proof.
  intros H0. apply Z.eqb_neq in H0.
  eexists. split; [|split].
  - simpl. unfold startSet. simpl. rewrite H0. simpl.
    unfold endSetStartRest. simpl. rewrite H0. simpl.
    unfold endRestStartSet. simpl. rewrite H0. simpl.
    unfold finishWorkout. simpl. rewrite H0. simpl. reflexivity.
  - reflexivity.
  - intros nowT. unfold calcTotals. simpl. rewrite H0. simpl.
    f_equal; lia.
Qed.

(** C3, on the trace start, startSet, finish with the non-decreasing
    readings 0, 0, 1000: [startTime] is stored as 0, startSet and finish
    return at their guards, the current exercise ends with no record (the
    claim has exactly one, with a rest of length 0), and [endTime] stays
    [null]. *)
Theorem finish_in_set_from_zero :
  run newWorkout [Start 0; StartSet 0; Finish 1000 1000]
  = Ok started_at_zero
  /\ phase started_at_zero = READY
  /\ (sets <$> exercises started_at_zero) = [[]]
  /\ endTime started_at_zero = None.
Proof. repeat split; reflexivity. Qed.

(** C4, on the trace start, startSet, nextExercise with the non-decreasing
    readings 0, 0, 1000: the first exercise ends with no record and no second
    exercise is appended. *)
Theorem force_close_from_zero :
  run newWorkout [Start 0; StartSet 0; NextExercise 1000]
  = Ok started_at_zero
  /\ (sets <$> exercises started_at_zero) = [[]].
Proof. split; reflexivity. Qed.

(** The trace start, startSet, nextExercise when start() reads a time other
    than 0: one record in the first exercise, with a lift but no rest, and a
    fresh second exercise that is current. *)
Lemma force_close_started t0 t1 t2 :
  t0 <> 0 ->
  run newWorkout [Start t0; StartSet t1; NextExercise t2]
  = Ok {| startTime := Some t0;
          exerciseStartTime := None;
          endTime := None;
          phase := READY;
          currentExerciseIndex := 1;
          exercises :=
            [ {| id := "ex-1"; name := "Exercise 1";
                 sets := [ {| setStart := Some t1; setEnd := Some t2;
                              restStart := None; restEnd := None |} ] |};
              {| id := "ex-2"; name := "Exercise 2"; sets := [] |} ];
          active := noActive |}.
Proof.
  intros H0. apply Z.eqb_neq in H0.
  simpl. unfold startSet. simpl. rewrite H0. simpl.
  unfold nextExercise. simpl. rewrite H0. reflexivity.
Qed.

(** C5, on the reachable state [started_at_zero]: [startTime] is present, so
    the stated precondition of start() fails, and yet start() at reading 7000
    replaces the state. *)
Theorem start_twice_from_zero :
  reachable started_at_zero
  /\ stated_precondition (Start 7000) started_at_zero = false
  /\ exists w', step started_at_zero (Start 7000) = Ok w'
                /\ startTime w' = Some 7000
                /\ w' <> started_at_zero.
Proof.
  split; [exists [Start 0]; reflexivity|].
  split; [reflexivity|].
  eexists; split; [reflexivity|]. split; [reflexivity|]. discriminate.
Qed.

(** A handler whose guard fires returns the state as it is. *)
Lemma guard_returns_noop w o : guard_returns o w = true -> step w o = Ok w.
Proof.
  destruct o; simpl; intros H;
    unfold startWorkout, startSet, endSetStartRest, endRestStartSet,
      nextExercise, finishWorkout;
    rewrite ?H; try reflexivity; discriminate.
Qed.

(** On a state that stores no reading 0 and whose index is in range, an
    operation whose stated precondition fails returns the state as it is. *)
Lemma stated_precondition_noop w o :
  is_Some (exercises w !! currentExerciseIndex w) ->
  startTime w <> Some 0 -> endTime w <> Some 0 ->
  stated_precondition o w = false -> step w o = Ok w.
Proof.
  intros [ex Hex] Hs He Hpre.
  destruct (guard_returns o w) eqn:Hg; [by apply guard_returns_noop|].
  destruct o; simpl in *;
    rewrite ?(truthy_present _ Hs), ?(truthy_present _ He) in Hg;
    try (destruct (present (startTime w)), (present (endTime w)),
           (phase w); simpl in *; discriminate).
  rewrite Hex in Hpre.
  unfold endRestStartSet.
  rewrite (truthy_present _ Hs), (truthy_present _ He), Hg, Hex.
  destruct (sets ex) as [|r l]; [reflexivity|].
  destruct (phase w); simpl in *; rewrite ?orb_true_r in Hg; discriminate.
Qed.

(** A second finish() changes nothing, provided the first one did not store
    the reading 0 in [endTime]. *)
Lemma finish_twice w t tEnd t' tEnd' w1 :
  tEnd <> 0 ->
  finishWorkout w t tEnd = Ok w1 -> finishWorkout w1 t' tEnd' = Ok w1.
Proof.
  intros Hne H. unfold finishWorkout in H.
  destruct (negb (truthy (startTime w)) || truthy (endTime w)) eqn:Hg.
  - inversion H; subst. unfold finishWorkout. by rewrite Hg.
  - destruct (finishWorkout_force w t); [|discriminate].
    inversion H; subst. unfold finishWorkout; simpl.
    destruct (Z.eqb_spec tEnd 0); [done|]. by rewrite orb_true_r.
Qed.

(** ** Time accounting under a clock that never goes back *)

Lemma fold_addSet l acc :
  fst (fold_left addSet l acc) + snd (fold_left addSet l acc)
  = fst acc + snd acc + setsMs l.
Proof.
  revert acc; induction l as [|s l IH]; intros acc; simpl; [lia|].
  rewrite IH. unfold addSet, liftMs, restDuration; simpl.
  destruct (setStart s), (setEnd s), (restStart s), (restEnd s); simpl; lia.
Qed.

Lemma fold_exercises exs acc :
  let r := fold_left (fun acc ex => fold_left addSet (sets ex) acc) exs acc in
  fst r + snd r = fst acc + snd acc + loggedMs exs.
Proof.
  revert acc; induction exs as [|ex exs IH]; intros acc; simpl; [lia|].
  simpl in IH. rewrite IH, fold_addSet. lia.
Qed.

Lemma calcTotals_logged w nowT :
  workMs (calcTotals w nowT) + restMs (calcTotals w nowT)
  = loggedMs (exercises w).
Proof.
  unfold calcTotals; simpl.
  pose proof (fold_exercises (exercises w) (0, 0)) as H. simpl in H. lia.
Qed.

Lemma setsMs_app l r :
  setsMs (l ++ [r]) = setsMs l + (liftMs r + restDuration r).
Proof. induction l as [|s l IH]; simpl; lia. Qed.

Lemma loggedMs_app exs ex :
  loggedMs (exs ++ [ex]) = loggedMs exs + setsMs (sets ex).
Proof. induction exs as [|e exs IH]; simpl; lia. Qed.

Lemma loggedMs_insert exs i ex ex' :
  exs !! i = Some ex ->
  loggedMs (<[i := ex']> exs)
  = loggedMs exs - setsMs (sets ex) + setsMs (sets ex').
Proof.
  revert i; induction exs as [|e exs IH]; intros [|i] H; simpl in *;
    try discriminate.
  - inversion H; subst. lia.
  - rewrite (IH i H). lia.
Qed.

Lemma alter_last_snoc (f : SetLog -> SetLog) l r :
  alter f (length (l ++ [r]) - 1)%nat (l ++ [r]) = l ++ [f r].
Proof.
  rewrite length_app; simpl.
  replace (length l + 1 - 1)%nat with (length l + 0)%nat by lia.
  rewrite alter_app_r. reflexivity.
Qed.

Lemma liftMs_withRestEnd r x : liftMs (withRestEnd r x) = liftMs r.
Proof. reflexivity. Qed.

Lemma restDuration_close r a t :
  restStart r = Some a ->
  restDuration (withRestEnd r (Some t)) = t - a.
Proof. intros H. unfold restDuration; simpl. by rewrite H. Qed.

Lemma restDuration_open r : restEnd r = None -> restDuration r = 0.
Proof. intros H. unfold restDuration. rewrite H. by destruct (restStart r). Qed.

Lemma open_interval_mono f T T' w :
  open_interval f T w -> T <= T' -> open_interval f T' w.
Proof.
  unfold open_interval. destruct (phase w); [done| |].
  - intros (a & ? & ? & ?) ?. exists a. repeat split; [done|lia|lia].
  - intros (ex & l & r & a & ? & ? & ? & ? & ? & ?) ?.
    exists ex, l, r, a. repeat split; try done; lia.
Qed.

Lemma accounted_mono T T' w : accounted T w -> T <= T' -> accounted T' w.
Proof.
  intros (Hi & Hidle & Hrun) HT. split; [done|]. split; [done|].
  intros s Hs Hne. destruct (Hrun s Hs Hne) as (f & ? & ? & ? & ? & ?).
  exists f. repeat split; try done; try lia.
  by eapply open_interval_mono.
Qed.

Lemma accounted_newWorkout T : accounted T newWorkout.
Proof.
  split; [reflexivity|]. split; [|discriminate]. by intros _.
Qed.

Lemma accounted_startWorkout T w t w' :
  accounted T w -> T <= t -> startWorkout w t = Ok w' -> accounted t w'.
Proof.
  intros Hacc HT H. unfold startWorkout in H.
  destruct (truthy (startTime w)) eqn:E; inversion H; subst; clear H.
  { by apply accounted_mono with T. }
  destruct Hacc as (Hi & Hidle & _).
  destruct (Hidle E) as (Hl & Hp & He).
  split; [exact Hi|]. split; simpl.
  - by intros _.
  - intros s Hs Hne. inversion Hs; subst. exists s.
    split_and!; try lia; try done. simpl. rewrite Hl. lia.
Qed.

Lemma accounted_startSet T w t w' :
  accounted T w -> T <= t -> startSet w t = Ok w' -> accounted t w'.
Proof.
  intros Hacc HT H. unfold startSet in H.
  destruct (negb (truthy (startTime w)) || truthy (endTime w)
            || negb (Phase_eqb (phase w) READY)) eqn:E;
    inversion H; subst; clear H.
  { by apply accounted_mono with T. }
  guard_facts E.
  destruct Hacc as (Hi & _ & Hrun).
  split; [exact Hi|]. split; simpl.
  - intros Hf. congruence.
  - intros s Hs Hne.
    destruct (Hrun s Hs Hne) as (f & ? & ? & ? & _ & Hend).
    exists f. split_and!; try done; try lia.
    exists t. split_and!; [done|lia|lia].
Qed.

Lemma accounted_endSetStartRest T w t w' :
  accounted T w -> T <= t -> endSetStartRest w t = Ok w' -> accounted t w'.
Proof.
  intros Hacc HT H. unfold endSetStartRest in H.
  destruct (negb (truthy (startTime w)) || truthy (endTime w)
            || negb (Phase_eqb (phase w) IN_SET)) eqn:E.
  { inversion H; subst. by apply accounted_mono with T. }
  destruct (exercises w !! currentExerciseIndex w) as [ex|] eqn:Hex;
    inversion H; subst; clear H.
  guard_facts E.
  destruct Hacc as (Hi & _ & Hrun).
  pose proof (lookup_lt_Some _ _ _ Hex) as Hlt.
  split; [unfold index_last in *; simpl; by rewrite length_insert|].
  split; simpl; [intros Hf; congruence|].
  intros s Hs Hne.
  destruct (Hrun s Hs Hne) as (f & ? & ? & Hlog & Hopen & _).
  unfold open_interval in Hopen. rewrite E in Hopen.
  destruct Hopen as (a & Ha & ? & ?).
  exists t. split_and!; try lia.
  - simpl. rewrite (loggedMs_insert _ _ _ _ Hex). simpl.
    rewrite setsMs_app. unfold liftMs, restDuration; simpl. rewrite Ha. lia.
  - unfold open_interval; simpl.
    eexists _, (sets ex), _, t.
    split_and!; [by apply list_lookup_insert_eq|reflexivity..|lia|lia].
  - not_ended.
Qed.

Lemma accounted_endRestStartSet T w t w' :
  accounted T w -> T <= t -> endRestStartSet w t = Ok w' -> accounted t w'.
Proof.
  intros Hacc HT H. unfold endRestStartSet in H.
  destruct (negb (truthy (startTime w)) || truthy (endTime w)
            || negb (Phase_eqb (phase w) IN_REST)) eqn:E.
  { inversion H; subst. by apply accounted_mono with T. }
  destruct (exercises w !! currentExerciseIndex w) as [ex|] eqn:Hex;
    [|discriminate].
  destruct (length (sets ex) =? 0)%nat eqn:Hlen.
  { inversion H; subst. by apply accounted_mono with T. }
  inversion H; subst; clear H.
  guard_facts E.
  destruct Hacc as (Hi & _ & Hrun).
  split; [unfold index_last in *; simpl; by rewrite length_insert|].
  split; simpl; [intros Hf; congruence|].
  intros s Hs Hne.
  destruct (Hrun s Hs Hne) as (f & ? & ? & Hlog & Hopen & _).
  unfold open_interval in Hopen. rewrite E in Hopen.
  destruct Hopen as (ex0 & l & r & a & Hex0 & Hsets & Ha & Hb & ? & ?).
  rewrite Hex in Hex0; inversion Hex0; subst ex0; clear Hex0.
  exists t. split_and!; try lia.
  - simpl. rewrite (loggedMs_insert _ _ _ _ Hex). simpl.
    rewrite Hsets, alter_last_snoc, !setsMs_app.
    rewrite liftMs_withRestEnd, (restDuration_close _ _ _ Ha),
      (restDuration_open _ Hb). lia.
  - unfold open_interval; simpl. exists t. split_and!; [done|lia|lia].
  - not_ended.
Qed.

(** What the force-finish branch of [nextExercise] keeps and what it logs. *)
Lemma nextExercise_force_accounted T w t w1 :
  accounted T w -> T <= t ->
  nextExercise_force w t = Ok w1 ->
  length (exercises w1) = length (exercises w)
  /\ startTime w1 = startTime w /\ endTime w1 = endTime w
  /\ forall s, startTime w = Some s -> s <> 0 ->
       exists f, s <= f /\ f <= t /\ loggedMs (exercises w1) <= f - s.
Proof.
  intros (Hi & _ & Hrun) HT H. unfold nextExercise_force in H.
  destruct (phase w) eqn:Hp.
  - inversion H; subst. split_and!; try done.
    intros s Hs Hne. destruct (Hrun s Hs Hne) as (f & ? & ? & ? & _).
    exists f. split_and!; [done|lia|done].
  - destruct (exercises w !! currentExerciseIndex w) as [ex|] eqn:Hex;
      inversion H; subst; clear H; simpl.
    split_and!; try done; [by rewrite length_insert|].
    intros s Hs Hne. destruct (Hrun s Hs Hne) as (f & ? & ? & ? & Hopen & _).
    unfold open_interval in Hopen. rewrite Hp in Hopen.
    destruct Hopen as (a & Ha & ? & ?).
    exists t. split_and!; try lia.
    rewrite (loggedMs_insert _ _ _ _ Hex). simpl.
    rewrite setsMs_app. unfold liftMs, restDuration; simpl. rewrite Ha.
    simpl. lia.
  - destruct (exercises w !! currentExerciseIndex w) as [ex|] eqn:Hex;
      inversion H; subst; clear H; simpl.
    split_and!; try done.
    { destruct (0 <? length (sets ex))%nat; [by rewrite length_insert|done]. }
    intros s Hs Hne. destruct (Hrun s Hs Hne) as (f & ? & ? & ? & Hopen & _).
    unfold open_interval in Hopen. rewrite Hp in Hopen.
    destruct Hopen as (ex0 & l & r & a & Hex0 & Hsets & Ha & Hb & ? & ?).
    rewrite Hex in Hex0; inversion Hex0; subst ex0; clear Hex0.
    exists t. split_and!; try lia.
    rewrite Hsets at 1. rewrite length_app; simpl.
    replace (0 <? length l + 1)%nat with true
      by (symmetry; apply Nat.ltb_lt; lia).
    rewrite (loggedMs_insert _ _ _ _ Hex). simpl.
    rewrite Hsets, alter_last_snoc, !setsMs_app. rewrite Hb; simpl.
    rewrite liftMs_withRestEnd, (restDuration_close _ _ _ Ha),
      (restDuration_open _ Hb). lia.
Qed.

Lemma accounted_nextExercise T w t w' :
  accounted T w -> T <= t -> nextExercise w t = Ok w' -> accounted t w'.
Proof.
  intros Hacc HT H. unfold nextExercise in H.
  destruct (negb (truthy (startTime w)) || truthy (endTime w)) eqn:E.
  { inversion H; subst. by apply accounted_mono with T. }
  destruct (nextExercise_force w t) as [w1|] eqn:Hforce; [|discriminate].
  inversion H; subst; clear H.
  guard_facts E.
  destruct (nextExercise_force_accounted _ _ _ _ Hacc HT Hforce)
    as (Hlen & Hst & Het & Hlog).
  split; [unfold index_last; simpl; rewrite length_app; simpl; lia|].
  split; simpl; [intros Hf; congruence|].
  intros s Hs Hne. rewrite Hst in Hs.
  destruct (Hlog s Hs Hne) as (f & ? & ? & ?).
  exists f. split_and!; try done.
  - simpl. rewrite loggedMs_app. simpl. lia.
  - rewrite Het. not_ended.
Qed.

(** What the branch on the phase in [finishWorkout] keeps and what it logs. *)
Lemma finishWorkout_force_accounted T w t exs :
  accounted T w -> T <= t ->
  finishWorkout_force w t = Some exs ->
  length exs = length (exercises w)
  /\ forall s, startTime w = Some s -> s <> 0 ->
       exists f, s <= f /\ f <= t /\ loggedMs exs <= f - s.
Proof.
  intros (Hi & _ & Hrun) HT H. unfold finishWorkout_force in H.
  destruct (phase w) eqn:Hp.
  - inversion H; subst. split; [done|].
    intros s Hs Hne. destruct (Hrun s Hs Hne) as (f & ? & ? & ? & _).
    exists f. split_and!; [done|lia|done].
  - destruct (exercises w !! currentExerciseIndex w) as [ex|] eqn:Hex;
      inversion H; subst; clear H.
    split; [by rewrite length_insert|].
    intros s Hs Hne. destruct (Hrun s Hs Hne) as (f & ? & ? & ? & Hopen & _).
    unfold open_interval in Hopen. rewrite Hp in Hopen.
    destruct Hopen as (a & Ha & ? & ?).
    exists t. split_and!; try lia.
    rewrite (loggedMs_insert _ _ _ _ Hex). simpl.
    rewrite setsMs_app. unfold liftMs, restDuration; simpl. rewrite Ha.
    simpl. lia.
  - destruct (exercises w !! currentExerciseIndex w) as [ex|] eqn:Hex;
      [|discriminate].
    split.
    { destruct (last (sets ex)) as [r|]; [|by inversion H].
      destruct (restStart r), (restEnd r); inversion H; subst;
        by rewrite ?length_insert. }
    intros s Hs Hne. destruct (Hrun s Hs Hne) as (f & ? & ? & ? & Hopen & _).
    unfold open_interval in Hopen. rewrite Hp in Hopen.
    destruct Hopen as (ex0 & l & r & a & Hex0 & Hsets & Ha & Hb & ? & ?).
    rewrite Hex in Hex0; inversion Hex0; subst ex0; clear Hex0.
    rewrite Hsets, last_snoc, Ha, Hb in H. inversion H; subst; clear H.
    exists t. split_and!; try lia.
    rewrite (loggedMs_insert _ _ _ _ Hex). simpl.
    rewrite Hsets, alter_last_snoc, !setsMs_app.
    rewrite liftMs_withRestEnd, (restDuration_close _ _ _ Ha),
      (restDuration_open _ Hb). lia.
Qed.

Lemma accounted_finishWorkout T w t tEnd w' :
  accounted T w -> T <= t -> t <= tEnd ->
  finishWorkout w t tEnd = Ok w' -> accounted tEnd w'.
Proof.
  intros Hacc HT HtE H. unfold finishWorkout in H.
  destruct (negb (truthy (startTime w)) || truthy (endTime w)) eqn:E.
  { inversion H; subst. apply accounted_mono with T; [done|lia]. }
  destruct (finishWorkout_force w t) as [exs|] eqn:Hforce; [|discriminate].
  inversion H; subst; clear H.
  guard_facts E.
  destruct (finishWorkout_force_accounted _ _ _ _ Hacc HT Hforce)
    as (Hlen & Hlog).
  destruct Hacc as (Hi & _ & _).
  split; [unfold index_last in *; simpl; lia|].
  split; simpl; [intros Hf; congruence|].
  intros s Hs Hne.
  destruct (Hlog s Hs Hne) as (f & ? & ? & ?).
  exists f. split_and!; try done; try lia.
  simpl. intros e He _. inversion He; subst. lia.
Qed.

Create HintDb accounting.

#[local] Hint Resolve accounted_startWorkout accounted_startSet
  accounted_endSetStartRest accounted_endRestStartSet accounted_nextExercise
  accounted_finishWorkout accounted_newWorkout : accounting.

Lemma accounted_step T w o w' :
  accounted T w ->
  nondecreasing (T :: readings o) ->
  step w o = Ok w' ->
  accounted (latest T o) w'.
Proof.
  intros Hacc Hmono Hstep.
  destruct o; simpl in Hmono, Hstep |- *;
    try (destruct Hmono as (? & ? & _));
    try (destruct Hmono as (? & _));
    try (inversion Hstep; subst w'); eauto with accounting.
Qed.

Lemma accounted_run ops :
  forall T w w',
    accounted T w ->
    nondecreasing (T :: concat (map readings ops)) ->
    run w ops = Ok w' ->
    exists T', accounted T' w'.
Proof.
  induction ops as [|o ops IH]; intros T w w' Hacc Hmono Hrun.
  - inversion Hrun; subst. eauto.
  - simpl in Hrun. destruct (step w o) as [w1|] eqn:Hstep; [|discriminate].
    simpl in Hmono.
    destruct (nondecreasing_latest _ _ _ Hmono) as (Ho & _ & Hrest).
    eapply IH; [eapply accounted_step| |]; eauto.
Qed.

(** Under a clock that never goes back, once [endTime] holds a reading that
    the guards take for set (any reading but 0), lifting plus resting time
    is at most the time in the gym. *)
Lemma totals_le_gym ops w :
  monotone_trace ops ->
  run newWorkout ops = Ok w ->
  truthy (endTime w) = true ->
  forall nowT,
    workMs (calcTotals w nowT) + restMs (calcTotals w nowT)
    <= gymMs (calcTotals w nowT).
Proof.
  intros Hmono Hrun Hend nowT.
  destruct (accounted_run ops _ _ _ (accounted_newWorkout _)
              (nondecreasing_from_head _ Hmono) Hrun)
    as (T & Hi & Hidle & Hrunning).
  rewrite calcTotals_logged.
  destruct (truthy_true _ Hend) as (e & He & Hne).
  destruct (truthy (startTime w)) eqn:Hst.
  - destruct (truthy_true _ Hst) as (s & Hs & Hsne).
    destruct (Hrunning s Hs Hsne) as (f & ? & ? & ? & _ & Hfe).
    specialize (Hfe e He Hne).
    unfold calcTotals; simpl. rewrite Hst, He, Hs. simpl. lia.
  - destruct (Hidle eq_refl) as (_ & _ & Hnone). congruence.
Qed.

(** ** Clocks that count from 0 *)

Lemma stored_positive_step T w o w' :
  accounted T w -> stored_positive w -> 0 <= T ->
  nondecreasing (T :: readings o) ->
  step w o = Ok w' ->
  stored_positive w'.
Proof.
  intros Hacc [Hs He] HT Hmono Hstep.
  destruct o; simpl in Hmono, Hstep.
  1-5: unfold startWorkout, startSet, endSetStartRest, endRestStartSet,
         nextExercise, nextExercise_force in Hstep;
       handler_cases; split; simpl; intros x Hx;
       try (inversion Hx; subst); eauto; lia.
  - unfold finishWorkout in Hstep.
    destruct (negb (truthy (startTime w)) || truthy (endTime w)) eqn:E.
    { inversion Hstep; subst. by split. }
    destruct (finishWorkout_force w t); inversion Hstep; subst; clear Hstep.
    split; simpl; [done|]. intros e Hx. inversion Hx; subst.
    guard_facts E.
    destruct (truthy_true _ Hg) as (s & Hst & Hne).
    destruct Hacc as (_ & _ & Hrun).
    destruct (Hrun s Hst Hne) as (f & ? & ? & _).
    specialize (Hs s Hst). lia.
  - inversion Hstep; subst. split; simpl; discriminate.
Qed.

Lemma stored_positive_run ops :
  forall T w w',
    accounted T w -> stored_positive w -> 0 <= T ->
    nondecreasing (T :: concat (map readings ops)) ->
    run w ops = Ok w' ->
    stored_positive w'.
Proof.
  induction ops as [|o ops IH]; intros T w w' Hacc Hpos HT Hmono Hrun.
  - by inversion Hrun; subst.
  - simpl in Hrun. destruct (step w o) as [w1|] eqn:Hstep; [|discriminate].
    simpl in Hmono.
    destruct (nondecreasing_latest _ _ _ Hmono) as (Ho & Hle & Hrest).
    apply (IH (latest T o) w1 w'); try done; [| |lia].
    + by eapply accounted_step.
    + by eapply stored_positive_step.
Qed.

(** On such a clock a present [endTime] is never 0, and the inequality holds
    whenever [endTime] is present. *)
Lemma totals_le_gym_nonneg ops w :
  clock_trace ops ->
  run newWorkout ops = Ok w ->
  is_Some (endTime w) ->
  forall nowT,
    workMs (calcTotals w nowT) + restMs (calcTotals w nowT)
    <= gymMs (calcTotals w nowT).
Proof.
  intros Hmono Hrun [e He].
  assert (Hpos : stored_positive w).
  { eapply (stored_positive_run ops 0); eauto using accounted_newWorkout;
      [split; simpl; discriminate | lia]. }
  apply (totals_le_gym ops); [by eapply nondecreasing_tail|done|].
  rewrite He. apply truthy_Some. destruct Hpos as [_ Hpos].
  specialize (Hpos e He). lia.
Qed.

(** On such a clock a second finish() changes nothing. *)
Lemma finish_twice_nonneg ops s t tEnd t' tEnd' s1 :
  clock_trace (ops ++ [Finish t tEnd]) ->
  run newWorkout ops = Ok s ->
  finishWorkout s t tEnd = Ok s1 ->
  finishWorkout s1 t' tEnd' = Ok s1.
Proof.
  intros Hmono Hrun Hfin.
  assert (Hrun1 : run newWorkout (ops ++ [Finish t tEnd]) = Ok s1).
  { rewrite (run_app _ _ _ _ Hrun). simpl. by rewrite Hfin. }
  assert (Hpos : stored_positive s1).
  { eapply (stored_positive_run _ 0); eauto using accounted_newWorkout;
      [split; simpl; discriminate | lia]. }
  unfold finishWorkout in Hfin |- *.
  destruct (negb (truthy (startTime s)) || truthy (endTime s)) eqn:Hg.
  - inversion Hfin; subst. by rewrite Hg.
  - destruct (finishWorkout_force s t); inversion Hfin; subst.
    simpl. destruct Hpos as [_ Hpos]. specialize (Hpos tEnd eq_refl).
    simpl. destruct (Z.eqb_spec tEnd 0); [lia|]. by rewrite orb_true_r.
Qed.

(** On such a clock finish() is idempotent: on every state [s] that the
    operations reach it returns a state [s1], and a second finish(), whatever
    the clock reads then, returns [s1] again; when the guards take [s] for
    started ([startTime] is truthy), [endTime] is present in [s1]. *)
Lemma finish_idempotent_on_clock ops s t tEnd t' tEnd' :
  clock_trace (ops ++ [Finish t tEnd]) ->
  run newWorkout ops = Ok s ->
  exists s1,
    finishWorkout s t tEnd = Ok s1
    /\ finishWorkout s1 t' tEnd' = Ok s1
    /\ (truthy (startTime s) = true -> is_Some (endTime s1)).
Proof.
  intros Hclock Hrun.
  assert (Hidx : index_last s) by (apply reachable_index_last; by exists ops).
  destruct (step_no_TypeError s (Finish t tEnd) Hidx) as [s1 Hfin].
  simpl in Hfin. exists s1. split; [exact Hfin|].
  split; [by eapply finish_twice_nonneg|].
  intros Hst. unfold finishWorkout in Hfin. rewrite Hst in Hfin. simpl in Hfin.
  destruct (truthy (endTime s)) eqn:Hend.
  - inversion Hfin; subst. destruct (truthy_true _ Hend) as (e & -> & _). eauto.
  - destruct (finishWorkout_force s t); inversion Hfin; subst. simpl. eauto.
Qed.

(** ** Readings below 0

    A time source may also read below 0 (a date before the epoch) and still
    never go back.  When finish() then reads exactly 0 it stores an [endTime]
    that the guards take for [null]. *)

(** C6, on the reachable started state after start() at reading -5000:
    finish() at reading 0 stores [endTime = 0]; a second finish() at reading
    7000 passes the guard again and overwrites [endTime]. *)
Theorem finish_twice_through_zero :
  exists s s1 s2,
    run newWorkout [Start (-5000)] = Ok s
    /\ truthy (startTime s) = true
    /\ finishWorkout s 0 0 = Ok s1
    /\ endTime s1 = Some 0
    /\ finishWorkout s1 7000 7000 = Ok s2
    /\ endTime s2 = Some 7000
    /\ s2 <> s1.
Proof.
  do 3 eexists. repeat split; try reflexivity. discriminate.
Qed.

(** C2, on the readings -5000, 0, 0, 10000, 100000, which never go back:
    finish() stores [endTime = 0], the guards keep accepting operations, and
    the state reached has [endTime] present with 90000 ms of lifting against
    5000 ms in the gym. *)
Theorem totals_exceed_gym_through_zero :
  exists w,
    monotone_trace
      [Start (-5000); Finish 0 0; StartSet 10000; EndSetStartRest 100000]
    /\ run newWorkout
         [Start (-5000); Finish 0 0; StartSet 10000; EndSetStartRest 100000]
       = Ok w
    /\ endTime w = Some 0
    /\ forall nowT,
         calcTotals w nowT
         = {| workMs := 90000; restMs := 0; gymMs := 5000 |}
         /\ ~ (workMs (calcTotals w nowT) + restMs (calcTotals w nowT)
               <= gymMs (calcTotals w nowT)).
Proof.
  eexists. split; [unfold monotone_trace; simpl; lia|].
  split; [reflexivity|]. split; [reflexivity|].
  intros nowT. split; [reflexivity|]. simpl. lia.
Qed.

(** * Part III: further properties of the code *)

(** ** Runs never raise *)

Lemma reachable_step w o w' : reachable w -> step w o = Ok w' -> reachable w'.
Proof.
  intros [ops Hrun] Hstep. exists (ops ++ [o]).
  rewrite (run_app _ _ _ _ Hrun). simpl. by rewrite Hstep.
Qed.

Lemma reachable_run w ops w' : reachable w -> run w ops = Ok w' -> reachable w'.
Proof.
  intros [ops0 Hrun0] Hrun. exists (ops0 ++ ops).
  by rewrite (run_app _ _ _ _ Hrun0).
Qed.

Lemma run_from_index_last ops :
  forall w, index_last w -> exists w', run w ops = Ok w'.
Proof.
  induction ops as [|o ops IH]; intros w Hw; simpl; [eauto|].
  destruct (step_no_TypeError w o Hw) as [w1 Hstep]. rewrite Hstep.
  apply IH. by eapply index_last_step.
Qed.

(** X1. No sequence of operations on the fresh session makes a handler
    dereference a missing exercise: every trace runs to a state. *)
Theorem run_never_raises ops : exists w, run newWorkout ops = Ok w.
Proof. apply run_from_index_last. reflexivity. Qed.

(** ** The transitions between phases *)

(** X2. A handler that changes the phase follows the cycle: startSet goes
    from [READY] to [IN_SET], endSetStartRest from [IN_SET] to [IN_REST],
    endRestStartSet from [IN_REST] to [IN_SET], and every other handler can
    only go to [READY]. *)
Theorem phase_transitions w o w' :
  step w o = Ok w' ->
  phase w' <> phase w ->
  match o with
  | StartSet _ => phase w = READY /\ phase w' = IN_SET
  | EndSetStartRest _ => phase w = IN_SET /\ phase w' = IN_REST
  | EndRestStartSet _ => phase w = IN_REST /\ phase w' = IN_SET
  | _ => phase w' = READY
  end.
Proof.
  intros Hs Hne.
  destruct o; simpl in Hs;
    unfold startWorkout, startSet, endSetStartRest, endRestStartSet,
      nextExercise, finishWorkout, resetAll in Hs;
    repeat match type of Hs with
      | context [if ?b then _ else _] => destruct b eqn:?
      | context [match ?x with _ => _ end] => destruct x eqn:?
      end;
    inversion Hs; subst; clear Hs; simpl in *; try done;
    match goal with
    | H : _ || _ = false |- _ => guard_facts H; by split
    end.
Qed.

Lemma phase_transitions_witness :
  step lifting_session (EndSetStartRest 9000) = Ok resting_session
  /\ phase resting_session <> phase lifting_session
  /\ phase lifting_session = IN_SET /\ phase resting_session = IN_REST.
Proof.
  assert (Hs : step lifting_session (EndSetStartRest 9000)
               = Ok resting_session) by reflexivity.
  assert (Hne : phase resting_session <> phase lifting_session)
    by discriminate.
  split; [exact Hs|]. split; [exact Hne|].
  exact (phase_transitions lifting_session (EndSetStartRest 9000)
           resting_session Hs Hne).
Defined.

(** ** What the handlers leave alone *)

Lemma startTime_kept_step w o w' :
  step w o = Ok w' -> o <> Reset -> truthy (startTime w) = true ->
  startTime w' = startTime w.
Proof.
  intros Hs Hr Hst.
  destruct o; simpl in Hs; try done;
    unfold startWorkout, startSet, endSetStartRest, endRestStartSet,
      nextExercise, nextExercise_force, finishWorkout in Hs;
    rewrite ?Hst in Hs; handler_cases; reflexivity.
Qed.

(** X3. Between two resets a [startTime] that the guards take for set is
    never changed: along a trace without reset, from any state, it stays what
    it was. *)
Theorem startTime_kept ops :
  forall w w',
    run w ops = Ok w' -> Reset ∉ ops -> truthy (startTime w) = true ->
    startTime w' = startTime w.
Proof.
  induction ops as [|o ops IH]; intros w w' Hrun Hr Hst; simpl in Hrun.
  - by inversion Hrun.
  - destruct (step w o) as [w1|] eqn:Hstep; [|discriminate].
    apply not_elem_of_cons in Hr as [Ho Hr].
    assert (H1 : startTime w1 = startTime w)
      by (eapply startTime_kept_step; eauto).
    rewrite <- H1. apply IH; [done|done|]. by rewrite H1.
Qed.

Lemma startTime_kept_witness :
  run lifting_session [EndSetStartRest 9000; NextExercise 12000; Start 13000]
  = Ok {| startTime := Some 1000;
          exerciseStartTime := None;
          endTime := None;
          phase := READY;
          currentExerciseIndex := 1;
          exercises :=
            [ {| id := "ex-1"; name := "Exercise 1";
                 sets := [ {| setStart := Some 2000; setEnd := Some 9000;
                              restStart := Some 9000;
                              restEnd := Some 12000 |} ] |};
              {| id := "ex-2"; name := "Exercise 2"; sets := [] |} ];
          active := noActive |}
  /\ (Reset ∉ [EndSetStartRest 9000; NextExercise 12000; Start 13000])
  /\ truthy (startTime lifting_session) = true
  /\ Some 1000 = startTime lifting_session.
Proof.
  assert (Hr : Reset ∉ [EndSetStartRest 9000; NextExercise 12000;
                        Start 13000]).
  { intros H. repeat (apply elem_of_cons in H as [H|H]; [discriminate|]).
    by apply elem_of_nil in H. }
  split; [reflexivity|]. split; [exact Hr|]. split; [reflexivity|].
  exact (startTime_kept
           [EndSetStartRest 9000; NextExercise 12000; Start 13000]
           lifting_session _ eq_refl Hr eq_refl).
Defined.

Lemma ended_ready_step w o w' :
  ended_ready w -> step w o = Ok w' -> ended_ready w'.
Proof.
  unfold ended_ready. intros Hw Hs.
  destruct o; simpl in Hs;
    unfold startWorkout, startSet, endSetStartRest, endRestStartSet,
      nextExercise, nextExercise_force, finishWorkout, resetAll in Hs;
    handler_cases; simpl in *; try exact Hw; try discriminate;
    intros He;
    repeat match goal with
      | H : _ || _ = false |- _ => guard_facts H
      end;
    try congruence;
    try (destruct (Hw He) as (_ & ? & ?)); by split_and!.
Qed.

Lemma reachable_ended_ready w : reachable w -> ended_ready w.
Proof.
  apply reachable_ind_step; [|apply ended_ready_step]. intros H. discriminate.
Qed.

(** X4. A session whose [endTime] the guards take for set is closed: its
    phase is [READY], no interval is active, and every operation but reset
    returns the state as it is. *)
Theorem ended_session_frozen w :
  reachable w -> truthy (endTime w) = true ->
  phase w = READY /\ active w = noActive
  /\ forall o, o <> Reset -> step w o = Ok w.
Proof.
  intros Hw He. destruct (reachable_ended_ready w Hw He) as (Hst & Hp & Ha).
  split; [done|]. split; [done|].
  intros o Ho. apply guard_returns_noop.
  destruct o; simpl; rewrite ?Hst, ?He; try done.
Qed.

Lemma finished_session_reachable : reachable finished_session.
Proof.
  exists [Start 1000; StartSet 2000; Finish 9000 9001]. reflexivity.
Defined.

Lemma ended_session_frozen_witness :
  reachable finished_session /\ truthy (endTime finished_session) = true
  /\ step finished_session (StartSet 12000) = Ok finished_session.
Proof.
  split; [exact finished_session_reachable|]. split; [reflexivity|].
  apply (ended_session_frozen finished_session finished_session_reachable
           eq_refl).
  discriminate.
Defined.

(** ** The shape of the log *)

Lemma index_last_snoc w :
  index_last w ->
  exists pre cur,
    exercises w = pre ++ [cur] /\ currentExerciseIndex w = length pre.
Proof.
  unfold index_last. destruct (exercises w) as [|cur pre _] using rev_ind.
  - simpl. lia.
  - rewrite length_app; simpl. intros H. exists pre, cur. split; [done|lia].
Qed.

Lemma lookup_snoc_last {A} (pre : list A) cur :
  (pre ++ [cur]) !! length pre = Some cur.
Proof. by apply list_lookup_middle. Qed.

Lemma insert_snoc_last {A} (pre : list A) cur x :
  <[length pre := x]> (pre ++ [cur]) = pre ++ [x].
Proof.
  replace (length pre) with (length pre + 0)%nat at 1 by lia.
  by rewrite insert_app_r.
Qed.

Lemma lookup_snoc_index {A} (l : list A) x :
  (l ++ [x]) !! (length (l ++ [x]) - 1)%nat = Some x.
Proof.
  rewrite length_app; simpl.
  replace (length l + 1 - 1)%nat with (length l) by lia.
  apply lookup_snoc_last.
Qed.

Lemma all_closed_snoc pre cur :
  all_closed (pre ++ [cur]) <-> all_closed pre /\ Forall closed (sets cur).
Proof. unfold all_closed. by rewrite Forall_app, Forall_singleton. Qed.

Lemma closed_withRestEnd r t : closed (withRestEnd r (Some t)).
Proof. intros _. simpl. eauto. Qed.

Lemma closed_no_rest a b :
  closed {| setStart := a; setEnd := b; restStart := None; restEnd := None |}.
Proof. intros [? H]. discriminate H. Qed.

Lemma closed_ended a b c d :
  closed {| setStart := a; setEnd := b; restStart := c; restEnd := Some d |}.
Proof. intros _. simpl. eauto. Qed.

(** Puts a state with [index_last] in the form [pre ++ [cur]]. *)
Ltac snoc_form w Hidx :=
  let pre := fresh "pre" in
  let cur := fresh "cur" in
  let Hex := fresh "Hex" in
  let Hi := fresh "Hi" in
  destruct (index_last_snoc w Hidx) as (pre & cur & Hex & Hi);
  destruct w as [st est et ph idx exs act]; simpl in *; subst exs idx.

Lemma rest_log_step w o w' :
  index_last w -> phase_started w -> rest_log w ->
  step w o = Ok w' -> rest_log w'.
Proof.
  intros Hidx Hps Hrl Hs. snoc_form w Hidx.
  unfold rest_log, phase_started in *; simpl in *.
  destruct o; simpl in Hs;
    unfold startWorkout, startSet, endSetStartRest, endRestStartSet,
      nextExercise, nextExercise_force, finishWorkout, finishWorkout_force,
      resetAll in Hs; simpl in Hs;
    rewrite ?lookup_snoc_last in Hs.
  - (* start *)
    destruct (truthy st) eqn:Hst; inversion Hs; subst; simpl; [done|].
    destruct Hps as [->|?]; [done|congruence].
  - (* startSet *)
    destruct (negb (truthy st) || truthy et || negb (Phase_eqb ph READY))
      eqn:E; inversion Hs; subst; simpl; [done|].
    guard_facts E. by subst ph.
  - (* endSetStartRest *)
    destruct (negb (truthy st) || truthy et || negb (Phase_eqb ph IN_SET))
      eqn:E; inversion Hs; subst; simpl; [done|].
    guard_facts E. subst ph. rewrite insert_snoc_last.
    apply all_closed_snoc in Hrl as [Hpre Hcur].
    eexists pre, _, (sets cur), _, t. by split_and!.
  - (* endRestStartSet *)
    destruct (negb (truthy st) || truthy et || negb (Phase_eqb ph IN_REST))
      eqn:E; [inversion Hs; subst; simpl; done|].
    guard_facts E. subst ph.
    destruct Hrl as (pre' & cur' & l & r & a & Hex' & Hsets & Hpre & Hl & Ha & Hb).
    apply app_inj_tail in Hex' as [<- <-].
    rewrite Hsets in Hs. rewrite length_app in Hs; simpl in Hs.
    replace (length l + 1 =? 0)%nat with false in Hs
      by (symmetry; apply Nat.eqb_neq; lia).
    inversion Hs; subst; simpl. rewrite insert_snoc_last.
    replace (length l + 1 - 1)%nat with (length l + 0)%nat by lia.
    rewrite alter_app_r. simpl.
    apply all_closed_snoc. split; [done|]. simpl.
    apply Forall_app. split; [done|].
    apply Forall_singleton, closed_withRestEnd.
  - (* nextExercise *)
    destruct (negb (truthy st) || truthy et) eqn:E;
      [inversion Hs; subst; simpl; done|].
    destruct ph; inversion Hs; subst; simpl.
    + apply all_closed_snoc. split; [done|]. constructor.
    + rewrite insert_snoc_last.
      apply all_closed_snoc in Hrl as [Hpre Hcur].
      apply all_closed_snoc. split; [|constructor].
      apply all_closed_snoc. split; [done|]. simpl.
      apply Forall_app. split; [done|].
      apply Forall_singleton, closed_no_rest.
    + destruct Hrl as (pre' & cur' & l & r & a & Hex' & Hsets & Hpre & Hl & Ha & Hb).
      apply app_inj_tail in Hex' as [<- <-].
      rewrite Hsets, length_app; simpl.
      replace (0 <? length l + 1)%nat with true
        by (symmetry; apply Nat.ltb_lt; lia).
      rewrite insert_snoc_last.
      replace (length l + 1 - 1)%nat with (length l + 0)%nat by lia.
      rewrite alter_app_r. simpl.
      apply all_closed_snoc. split; [|constructor].
      apply all_closed_snoc. split; [done|]. simpl.
      apply Forall_app. split; [done|].
      apply Forall_singleton, closed_withRestEnd.
  - (* finish *)
    destruct (negb (truthy st) || truthy et) eqn:E;
      [inversion Hs; subst; simpl; done|].
    destruct ph; simpl in Hs.
    + inversion Hs; subst; simpl. done.
    + inversion Hs; subst; simpl. rewrite insert_snoc_last.
      apply all_closed_snoc in Hrl as [Hpre Hcur].
      apply all_closed_snoc. split; [done|]. simpl.
      apply Forall_app. split; [done|].
      apply Forall_singleton, closed_ended.
    + destruct Hrl as (pre' & cur' & l & r & a & Hex' & Hsets & Hpre & Hl & Ha & Hb).
      apply app_inj_tail in Hex' as [<- <-].
      rewrite Hsets, last_snoc, Ha, Hb in Hs.
      inversion Hs; subst; simpl. rewrite insert_snoc_last.
      rewrite length_app; simpl.
      replace (length l + 1 - 1)%nat with (length l + 0)%nat by lia.
      rewrite alter_app_r. simpl.
      apply all_closed_snoc. split; [done|]. simpl.
      apply Forall_app. split; [done|].
      apply Forall_singleton, closed_withRestEnd.
  - (* reset *)
    inversion Hs; subst; simpl. repeat constructor.
Qed.

Lemma reachable_rest_log w : reachable w -> rest_log w.
Proof.
  intros Hw. cut (index_last w /\ phase_started w /\ rest_log w); [tauto|].
  revert w Hw. apply reachable_ind_step.
  - split_and!; [reflexivity|by left|]. repeat constructor.
  - intros w o w' (Hi & Hp & Hr) Hs. split_and!.
    + by eapply index_last_step.
    + by eapply phase_started_step.
    + by eapply rest_log_step.
Qed.

(** X5. The log never holds a dangling open rest: in a reachable state a
    record whose rest has begun and not ended exists only in phase
    [IN_REST], and it is the last record of the last exercise; in that phase
    there is such a record in the current exercise. *)
Theorem open_rest_only_current w :
  reachable w ->
  (forall ex r,
      ex ∈ exercises w -> r ∈ sets ex ->
      is_Some (restStart r) -> restEnd r = None ->
      phase w = IN_REST
      /\ last (exercises w) = Some ex /\ last (sets ex) = Some r)
  /\ (phase w = IN_REST ->
      exists ex r,
        exercises w !! currentExerciseIndex w = Some ex
        /\ last (sets ex) = Some r
        /\ is_Some (restStart r) /\ restEnd r = None).
Proof.
  intros Hw. pose proof (reachable_rest_log w Hw) as Hrl.
  pose proof (reachable_index_last w Hw) as Hidx.
  assert (Hopen : forall r, closed r -> is_Some (restStart r) ->
                            restEnd r = None -> False).
  { intros r Hc Hs He. destruct (Hc Hs) as [? H]. congruence. }
  unfold rest_log in Hrl. split.
  - intros ex r Hex Hr Hs He.
    destruct (phase w) eqn:Hp;
      try (exfalso; apply (Hopen r); [|done|done];
           eapply Forall_forall; [|exact Hr];
           eapply (Forall_forall (fun ex => Forall closed (sets ex)));
           [exact Hrl|exact Hex]).
    destruct Hrl as (pre & cur & l & r0 & a & Hexs & Hsets & Hpre & Hl & Ha & Hb).
    rewrite Hexs in Hex |- *. rewrite last_snoc.
    apply elem_of_app in Hex as [Hex|Hex].
    { exfalso. apply (Hopen r); [|done|done].
      eapply Forall_forall; [|exact Hr].
      eapply (Forall_forall (fun ex => Forall closed (sets ex))); eauto. }
    apply list_elem_of_singleton in Hex. subst ex.
    rewrite Hsets in Hr |- *. rewrite last_snoc.
    apply elem_of_app in Hr as [Hr|Hr].
    { exfalso. apply (Hopen r); [|done|done].
      eapply Forall_forall; eauto. }
    apply list_elem_of_singleton in Hr. by subst r.
  - intros Hp. rewrite Hp in Hrl.
    destruct Hrl as (pre & cur & l & r0 & a & Hexs & Hsets & Hpre & Hl & Ha & Hb).
    destruct (index_last_snoc w Hidx) as (pre' & cur' & Hexs' & Hi).
    rewrite Hexs in Hexs'. apply app_inj_tail in Hexs' as [<- <-].
    exists cur, r0. rewrite Hexs, Hi, lookup_snoc_last, Hsets, last_snoc.
    split_and!; eauto.
Qed.

Lemma open_rest_only_current_witness :
  reachable resting_session
  /\ (phase resting_session = IN_REST ->
      exists ex r,
        exercises resting_session !! currentExerciseIndex resting_session
        = Some ex
        /\ last (sets ex) = Some r
        /\ is_Some (restStart r) /\ restEnd r = None).
Proof.
  split; [exact resting_session_reachable|].
  exact (proj2 (open_rest_only_current resting_session
                  resting_session_reachable)).
Defined.

(** ** The log only grows *)

Lemma keeps_refl r : keeps r r.
Proof. unfold keeps. tauto. Qed.

Lemma keeps_trans r1 r2 r3 : keeps r1 r2 -> keeps r2 r3 -> keeps r1 r3.
Proof.
  unfold keeps. intros (?&?&?&H12) (?&?&?&H23).
  split_and!; try congruence.
  destruct H12 as [H12|H12]; [|by right].
  destruct H23 as [H23|H23]; [left; congruence|right; congruence].
Qed.

Lemma keeps_withRestEnd r x : restEnd r = None -> keeps r (withRestEnd r x).
Proof. unfold keeps; simpl. tauto. Qed.

Lemma keeps_nullish r t :
  keeps r (withRestEnd r (Some (nullish (restEnd r) t))).
Proof.
  unfold keeps; simpl. split_and!; try done.
  destruct (restEnd r); simpl; [by left|by right].
Qed.

Lemma sets_extend_refl l : sets_extend l l.
Proof. intros j r H. eauto using keeps_refl. Qed.

Lemma sets_extend_trans l1 l2 l3 :
  sets_extend l1 l2 -> sets_extend l2 l3 -> sets_extend l1 l3.
Proof.
  intros H12 H23 j r H. destruct (H12 j r H) as (r2 & H2 & K12).
  destruct (H23 j r2 H2) as (r3 & H3 & K23). eauto using keeps_trans.
Qed.

Lemma sets_extend_push l r : sets_extend l (l ++ [r]).
Proof.
  intros j x H. exists x. split; [|apply keeps_refl].
  rewrite lookup_app_l; [done|]. by eapply lookup_lt_Some.
Qed.

Lemma sets_extend_last l r r' :
  keeps r r' -> sets_extend (l ++ [r]) (l ++ [r']).
Proof.
  intros K j x H. apply lookup_snoc_Some in H as [[Hlt H]|[-> ->]].
  - exists x. split; [|apply keeps_refl]. by rewrite lookup_app_l.
  - exists r'. split; [apply lookup_snoc_last|done].
Qed.

Lemma log_extends_refl exs : log_extends exs exs.
Proof. intros i ex H. exists ex. eauto using sets_extend_refl. Qed.

Lemma log_extends_trans e1 e2 e3 :
  log_extends e1 e2 -> log_extends e2 e3 -> log_extends e1 e3.
Proof.
  intros H12 H23 i ex H.
  destruct (H12 i ex H) as (ex2 & H2 & ? & ? & S12).
  destruct (H23 i ex2 H2) as (ex3 & H3 & ? & ? & S23).
  exists ex3. split_and!; try congruence. by eapply sets_extend_trans.
Qed.

Lemma log_extends_cur pre cur l' :
  sets_extend (sets cur) l' ->
  log_extends (pre ++ [cur]) (pre ++ [withSets cur l']).
Proof.
  intros S i ex H. apply lookup_snoc_Some in H as [[Hlt H]|[-> ->]].
  - exists ex. rewrite lookup_app_l by done. eauto using sets_extend_refl.
  - eexists. split; [apply lookup_snoc_last|]. by split_and!.
Qed.

Lemma log_extends_app exs x : log_extends exs (exs ++ [x]).
Proof.
  intros i ex H. exists ex. rewrite lookup_app_l by (by eapply lookup_lt_Some).
  eauto using sets_extend_refl.
Qed.

Lemma log_extends_step w o w' :
  index_last w -> rest_log w ->
  step w o = Ok w' -> o <> Reset ->
  log_extends (exercises w) (exercises w').
Proof.
  intros Hidx Hrl Hs Hr. snoc_form w Hidx.
  unfold rest_log in Hrl; simpl in *.
  destruct o; simpl in Hs; try done;
    unfold startWorkout, startSet, endSetStartRest, endRestStartSet,
      nextExercise, nextExercise_force, finishWorkout, finishWorkout_force
      in Hs; simpl in Hs;
    rewrite ?lookup_snoc_last in Hs.
  - destruct (truthy st); inversion Hs; subst; simpl; apply log_extends_refl.
  - destruct (negb (truthy st) || truthy et || negb (Phase_eqb ph READY));
      inversion Hs; subst; simpl; apply log_extends_refl.
  - destruct (negb (truthy st) || truthy et || negb (Phase_eqb ph IN_SET));
      inversion Hs; subst; simpl; [apply log_extends_refl|].
    rewrite insert_snoc_last. apply log_extends_cur, sets_extend_push.
  - destruct (negb (truthy st) || truthy et || negb (Phase_eqb ph IN_REST))
      eqn:E; [inversion Hs; subst; simpl; apply log_extends_refl|].
    guard_facts E. subst ph.
    destruct Hrl as (pre' & cur' & l & r & a & Hex' & Hsets & Hpre & Hl & Ha & Hb).
    apply app_inj_tail in Hex' as [<- <-].
    rewrite Hsets in Hs. rewrite length_app in Hs; simpl in Hs.
    replace (length l + 1 =? 0)%nat with false in Hs
      by (symmetry; apply Nat.eqb_neq; lia).
    inversion Hs; subst; simpl. rewrite insert_snoc_last.
    replace (length l + 1 - 1)%nat with (length l + 0)%nat by lia.
    rewrite alter_app_r. simpl. apply log_extends_cur. rewrite Hsets.
    by apply sets_extend_last, keeps_withRestEnd.
  - destruct (negb (truthy st) || truthy et);
      [inversion Hs; subst; simpl; apply log_extends_refl|].
    destruct ph; inversion Hs; subst; simpl.
    + apply log_extends_app.
    + rewrite insert_snoc_last.
      eapply log_extends_trans; [|apply log_extends_app].
      apply log_extends_cur, sets_extend_push.
    + destruct Hrl as (pre' & cur' & l & r & a & Hex' & Hsets & Hpre & Hl & Ha & Hb).
      apply app_inj_tail in Hex' as [<- <-].
      rewrite Hsets, length_app; simpl.
      replace (0 <? length l + 1)%nat with true
        by (symmetry; apply Nat.ltb_lt; lia).
      rewrite insert_snoc_last.
      replace (length l + 1 - 1)%nat with (length l + 0)%nat by lia.
      rewrite alter_app_r. simpl.
      eapply log_extends_trans; [|apply log_extends_app].
      apply log_extends_cur. rewrite Hsets.
      apply sets_extend_last, keeps_nullish.
  - destruct (negb (truthy st) || truthy et);
      [inversion Hs; subst; simpl; apply log_extends_refl|].
    destruct ph; simpl in Hs.
    + inversion Hs; subst; simpl. apply log_extends_refl.
    + inversion Hs; subst; simpl. rewrite insert_snoc_last.
      apply log_extends_cur, sets_extend_push.
    + destruct Hrl as (pre' & cur' & l & r & a & Hex' & Hsets & Hpre & Hl & Ha & Hb).
      apply app_inj_tail in Hex' as [<- <-].
      rewrite Hsets, last_snoc, Ha, Hb in Hs.
      inversion Hs; subst; simpl. rewrite insert_snoc_last.
      rewrite length_app; simpl.
      replace (length l + 1 - 1)%nat with (length l + 0)%nat by lia.
      rewrite alter_app_r. simpl. apply log_extends_cur. rewrite Hsets.
      by apply sets_extend_last, keeps_withRestEnd.
Qed.

(** X6. Between two resets the log only grows: along a trace without reset
    from a reachable state, every exercise keeps its place, [id] and [name],
    every record keeps its place, [setStart], [setEnd] and [restStart], and a
    [restEnd] changes only from [null] to a timestamp. *)
Theorem log_only_grows ops :
  forall w w',
    reachable w -> run w ops = Ok w' -> Reset ∉ ops ->
    log_extends (exercises w) (exercises w').
Proof.
  induction ops as [|o ops IH]; intros w w' Hw Hrun Hr; simpl in Hrun.
  - inversion Hrun. apply log_extends_refl.
  - destruct (step w o) as [w1|] eqn:Hstep; [|discriminate].
    apply not_elem_of_cons in Hr as [Ho Hr].
    eapply log_extends_trans.
    + apply (log_extends_step w o w1); auto using reachable_index_last,
        reachable_rest_log.
    + apply IH; [by eapply reachable_step|done|done].
Qed.

Lemma log_only_grows_witness :
  reachable resting_session
  /\ (Reset ∉ [NextExercise 12000; StartSet 15000; Finish 21000 21000])
  /\ exists w',
       run resting_session
         [NextExercise 12000; StartSet 15000; Finish 21000 21000] = Ok w'
       /\ log_extends (exercises resting_session) (exercises w').
Proof.
  assert (Hr : Reset ∉ [NextExercise 12000; StartSet 15000;
                        Finish 21000 21000]).
  { intros H. repeat (apply elem_of_cons in H as [H|H]; [discriminate|]).
    by apply elem_of_nil in H. }
  split; [exact resting_session_reachable|]. split; [exact Hr|].
  eexists. split; [reflexivity|].
  exact (log_only_grows
           [NextExercise 12000; StartSet 15000; Finish 21000 21000]
           resting_session _ resting_session_reachable eq_refl Hr).
Defined.

(** ** The buttons and the guards *)

(** X7. On a reachable state the render wires a button to an operation other
    than reset exactly when the guard of its handler does not fire: no button
    on the screen is a silent no-op, and no handler that would act lacks its
    button. *)
Theorem offered_iff_guard_passes w o :
  reachable w -> o <> Reset ->
  (offered w o = true <-> guard_returns o w = false).
Proof.
  intros Hw Ho. pose proof (reachable_ended_ready w Hw) as He.
  unfold ended_ready in He.
  destruct o; try done; unfold offered, showsSummary, primaryAction; simpl;
    destruct (truthy (startTime w)) eqn:Hst,
      (truthy (endTime w)) eqn:Het, (phase w); simpl;
    try (split; (done || discriminate));
    destruct (He eq_refl) as (? & _); discriminate.
Qed.

Lemma offered_iff_guard_passes_witness :
  reachable resting_session /\ EndRestStartSet 12000 <> Reset
  /\ (offered resting_session (EndRestStartSet 12000) = true <->
      guard_returns (EndRestStartSet 12000) resting_session = false).
Proof.
  assert (Ho : EndRestStartSet 12000 <> Reset) by discriminate.
  split; [exact resting_session_reachable|]. split; [exact Ho|].
  exact (offered_iff_guard_passes resting_session (EndRestStartSet 12000)
           resting_session_reachable Ho).
Defined.

(** X8. On a reachable state, when [primaryAction] is not [null], running
    its [action] returns a state in another phase, at any reading of the
    clock: the primary button always moves the session on. *)
Theorem primaryAction_changes_phase w a t :
  reachable w -> primaryAction w = Some a ->
  exists w', action a w t = Ok w' /\ phase w' <> phase w.
Proof.
  intros Hw Ha.
  pose proof (reachable_index_last w Hw) as Hidx.
  pose proof (reachable_rest_log w Hw) as Hrl.
  snoc_form w Hidx. unfold primaryAction, rest_log in *; simpl in *.
  destruct (negb (truthy st) || truthy et) eqn:E; [discriminate|].
  destruct ph; inversion Ha; subst; simpl.
  - unfold startSet; simpl. rewrite E. simpl. eexists. split; [done|]. done.
  - unfold endSetStartRest; simpl. rewrite E, lookup_snoc_last. simpl.
    eexists. split; [done|]. done.
  - destruct Hrl as (pre' & cur' & l & r & x & Hex' & Hsets & _).
    apply app_inj_tail in Hex' as [<- <-].
    unfold endRestStartSet; simpl. rewrite E, lookup_snoc_last. simpl.
    rewrite Hsets, length_app; simpl.
    replace (length l + 1 =? 0)%nat with false
      by (symmetry; apply Nat.eqb_neq; lia).
    eexists. split; [done|]. done.
Qed.

Lemma primaryAction_changes_phase_witness :
  reachable resting_session
  /\ exists a,
       primaryAction resting_session = Some a
       /\ exists w', action a resting_session 12000 = Ok w'
                     /\ phase w' <> phase resting_session.
Proof.
  split; [exact resting_session_reachable|].
  eexists. split; [reflexivity|].
  exact (primaryAction_changes_phase resting_session _ 12000
           resting_session_reachable eq_refl).
Defined.

(** X9. The label and the colour of the phase display tell the three phases
    apart. *)
Theorem phase_display_injective :
  Inj (=) (=) getPhaseLabel /\ Inj (=) (=) getPhaseColor.
Proof. split; intros p q H; destruct p, q; try done; discriminate H. Qed.

(** ** The set counter *)

(** X10. [getSetCountForDisplay] never raises on a reachable state, and an
    operation changes the count it shows only in these ways: endSetStartRest
    that acts adds one, finish that acts in phase [IN_SET] adds one,
    nextExercise that acts and reset put it back to 0. *)
Theorem set_count_by_operation w :
  reachable w ->
  exists n,
    getSetCountForDisplay w = Some n
    /\ forall o w',
         step w o = Ok w' ->
         getSetCountForDisplay w'
         = Some match o with
                | EndSetStartRest _ => if guard_returns o w then n else S n
                | Finish _ _ =>
                    if guard_returns o w then n
                    else if Phase_eqb (phase w) IN_SET then S n else n
                | NextExercise _ => if guard_returns o w then n else O
                | Reset => O
                | _ => n
                end.
Proof.
  intros Hw.
  pose proof (reachable_index_last w Hw) as Hidx.
  pose proof (reachable_rest_log w Hw) as Hrl.
  snoc_form w Hidx. unfold getSetCountForDisplay, rest_log in *; simpl in *.
  rewrite lookup_snoc_last. eexists. split; [reflexivity|].
  intros o w' Hs.
  destruct o; simpl in Hs |- *;
    unfold startWorkout, startSet, endSetStartRest, endRestStartSet,
      nextExercise, nextExercise_force, finishWorkout, finishWorkout_force,
      resetAll in Hs; simpl in Hs;
    rewrite ?lookup_snoc_last in Hs.
  - destruct (truthy st); inversion Hs; subst; simpl;
      by rewrite lookup_snoc_last.
  - destruct (negb (truthy st) || truthy et || negb (Phase_eqb ph READY));
      inversion Hs; subst; simpl; by rewrite lookup_snoc_last.
  - destruct (negb (truthy st) || truthy et || negb (Phase_eqb ph IN_SET));
      inversion Hs; subst; simpl;
      rewrite ?insert_snoc_last, lookup_snoc_last; [done|].
    simpl. rewrite length_app; simpl. f_equal. lia.
  - destruct (negb (truthy st) || truthy et || negb (Phase_eqb ph IN_REST));
      [inversion Hs; subst; simpl; by rewrite lookup_snoc_last|].
    destruct (length (sets cur) =? 0)%nat; inversion Hs; subst; simpl;
      rewrite ?insert_snoc_last, lookup_snoc_last; [done|].
    simpl. by rewrite length_alter.
  - destruct (negb (truthy st) || truthy et);
      [inversion Hs; subst; simpl; by rewrite lookup_snoc_last|].
    destruct ph; inversion Hs; subst; simpl;
      by rewrite lookup_snoc_index.
  - destruct (negb (truthy st) || truthy et);
      [inversion Hs; subst; simpl; by rewrite lookup_snoc_last|].
    destruct ph; simpl in Hs.
    + inversion Hs; subst; simpl. by rewrite lookup_snoc_last.
    + inversion Hs; subst; simpl. rewrite insert_snoc_last, lookup_snoc_last.
      simpl. rewrite length_app; simpl. f_equal. lia.
    + destruct (last (sets cur)) as [r|]; [|inversion Hs; subst; simpl;
                                             by rewrite lookup_snoc_last].
      destruct (restStart r), (restEnd r); inversion Hs; subst; simpl;
        rewrite ?insert_snoc_last, lookup_snoc_last; simpl;
        by rewrite ?length_alter.
  - inversion Hs; subst. reflexivity.
Qed.

Lemma set_count_by_operation_witness :
  reachable lifting_session
  /\ getSetCountForDisplay lifting_session = Some O
  /\ getSetCountForDisplay resting_session = Some 1%nat.
Proof.
  split; [exact lifting_session_reachable|]. split; [reflexivity|].
  destruct (set_count_by_operation lifting_session lifting_session_reachable)
    as (n & Hn & Hstep).
  rewrite (Hstep (EndSetStartRest 9000) resting_session eq_refl).
  simpl in Hn. inversion Hn. reflexivity.
Defined.

(** ** The numbering of the exercises *)

Lemma numbered_step w o w' :
  index_last w -> numbered (exercises w) -> step w o = Ok w' ->
  numbered (exercises w').
Proof.
  assert (Hcur : forall pre cur l,
             numbered (pre ++ [cur]) -> numbered (pre ++ [withSets cur l])).
  { intros pre cur l H i ex Hi.
    apply lookup_snoc_Some in Hi as [[Hlt Hi]|[-> <-]].
    - apply H. by rewrite lookup_app_l.
    - simpl. apply H, lookup_snoc_last. }
  assert (Hnew : forall exs,
             numbered exs ->
             numbered
               (exs ++
                [ {| id := "ex-" +:+ String_of (Z.of_nat (length exs) + 1);
                     name :=
                       "Exercise " +:+ String_of (Z.of_nat (length exs) + 1);
                     sets := [] |} ])).
  { intros exs H i ex Hi.
    apply lookup_snoc_Some in Hi as [[Hlt Hi]|[-> <-]]; [by apply H|done]. }
  intros Hidx Hn Hs. snoc_form w Hidx.
  destruct o; simpl in Hs;
    unfold startWorkout, startSet, endSetStartRest, endRestStartSet,
      nextExercise, nextExercise_force, finishWorkout, finishWorkout_force,
      resetAll in Hs; simpl in Hs;
    rewrite ?lookup_snoc_last in Hs;
    handler_cases; simpl; rewrite ?insert_snoc_last; auto.
  intros [|i] ex Hi; [|done]. by inversion Hi.
Qed.

Lemma reachable_numbered w : reachable w -> numbered (exercises w).
Proof.
  intros Hw. cut (index_last w /\ numbered (exercises w)); [tauto|].
  revert w Hw. apply reachable_ind_step.
  - split; [reflexivity|]. intros [|i] ex Hi; [|done]. by inversion Hi.
  - intros w o w' [Hi Hn] Hs. split.
    + by eapply index_last_step.
    + by eapply numbered_step.
Qed.

(** X11. In a reachable state the exercise at place [i] has the [id]
    "ex-(i+1)" and the [name] "Exercise (i+1)", so no two exercises share an
    [id] (the key of their cards in the summary). *)
Theorem exercise_ids_unique w :
  reachable w ->
  (forall i ex,
      exercises w !! i = Some ex ->
      id ex = "ex-" +:+ String_of (Z.of_nat i + 1)
      /\ name ex = "Exercise " +:+ String_of (Z.of_nat i + 1))
  /\ NoDup (id <$> exercises w).
Proof.
  intros Hw. pose proof (reachable_numbered w Hw) as Hn.
  split; [exact Hn|].
  apply NoDup_alt. intros i j x Hi Hj.
  rewrite list_lookup_fmap in Hi, Hj.
  destruct (exercises w !! i) as [ei|] eqn:Ei; [|discriminate].
  destruct (exercises w !! j) as [ej|] eqn:Ej; [|discriminate].
  simpl in Hi, Hj. inversion Hi as [Hi']. inversion Hj as [Hj'].
  destruct (Hn i ei Ei) as [Hidi _]. destruct (Hn j ej Ej) as [Hidj _].
  rewrite Hidi in Hi'. rewrite Hidj in Hj'. rewrite <- Hj' in Hi'.
  simpl in Hi'. inversion Hi' as [Hp]. simpl in Hp. unfold String_of in Hp.
  apply pretty_Z_inj in Hp. lia.
Qed.

Lemma exercise_ids_unique_witness :
  reachable resting_session /\ NoDup (id <$> exercises resting_session).
Proof.
  split; [exact resting_session_reachable|].
  exact (proj2 (exercise_ids_unique resting_session
                  resting_session_reachable)).
Defined.

(** ** Totals of the summary *)

Lemma sumZ_cons x l : sumZ (x :: l) = x + sumZ l.
Proof. reflexivity. Qed.

Lemma addSet_eq acc s :
  addSet acc s = (fst acc + liftMs s, snd acc + restDuration s).
Proof.
  unfold addSet, liftMs, restDuration.
  destruct (setStart s), (setEnd s), (restStart s), (restEnd s);
    simpl; f_equal; lia.
Qed.

Lemma fold_addSet_pair l acc :
  fold_left addSet l acc
  = (fst acc + sumZ (liftMs <$> l), snd acc + sumZ (restDuration <$> l)).
Proof.
  revert acc; induction l as [|s l IH]; intros acc.
  - destruct acc; simpl; f_equal; lia.
  - cbn [fold_left]. rewrite IH, addSet_eq, !fmap_cons, !sumZ_cons.
    cbn [fst snd]. f_equal; lia.
Qed.

Lemma exerciseTotals_sum_of_rows_aux ex :
  exerciseTotals ex
  = {| exWorkMs := sumZ (liftMs <$> sets ex);
       exRestMs := sumZ (restDuration <$> sets ex) |}.
Proof. unfold exerciseTotals. by rewrite fold_addSet_pair. Qed.

(** X12. The totals of an exercise are the sums of the lifting and resting
    times that the summary shows on the rows of its sets. *)
Theorem exerciseTotals_sum_of_rows ex :
  exerciseTotals ex
  = {| exWorkMs := sumZ (liftMs <$> sets ex);
       exRestMs := sumZ (restDuration <$> sets ex) |}.
Proof. apply exerciseTotals_sum_of_rows_aux. Qed.

Lemma fold_exercises_pair exs acc :
  fold_left (fun acc ex => fold_left addSet (sets ex) acc) exs acc
  = (fst acc + sumZ ((fun ex => exWorkMs (exerciseTotals ex)) <$> exs),
     snd acc + sumZ ((fun ex => exRestMs (exerciseTotals ex)) <$> exs)).
Proof.
  revert acc; induction exs as [|ex exs IH]; intros acc.
  - destruct acc; simpl; f_equal; lia.
  - cbn [fold_left]. rewrite IH, fold_addSet_pair, !fmap_cons, !sumZ_cons.
    rewrite exerciseTotals_sum_of_rows_aux. cbn [fst snd exWorkMs exRestMs].
    f_equal; lia.
Qed.

(** X13. The session totals of lifting and of resting are the sums of the
    totals of the exercises: the cards of the summary add up to its
    headline figures. *)
Theorem calcTotals_sum_of_exercises w nowT :
  workMs (calcTotals w nowT)
  = sumZ ((fun ex => exWorkMs (exerciseTotals ex)) <$> exercises w)
  /\ restMs (calcTotals w nowT)
     = sumZ ((fun ex => exRestMs (exerciseTotals ex)) <$> exercises w).
Proof.
  unfold calcTotals; simpl. rewrite fold_exercises_pair. simpl. split; lia.
Qed.

(** ** The clock format shows whole seconds *)

Lemma string_length_app s t :
  String.length (s +:+ t) = (String.length s + String.length t)%nat.
Proof. induction s as [|c s IH]; simpl; [done|]. by rewrite IH. Qed.

Lemma string_app_inj_len s1 s2 t1 t2 :
  s1 +:+ t1 = s2 +:+ t2 -> String.length t1 = String.length t2 ->
  s1 = s2 /\ t1 = t2.
Proof.
  revert s2; induction s1 as [|c s1 IH]; intros [|d s2] H Hlen; simpl in H.
  - done.
  - apply (f_equal String.length) in H.
    rewrite !string_length_app in H. simpl in H. lia.
  - apply (f_equal String.length) in H.
    rewrite !string_length_app in H. simpl in H. lia.
  - inversion H as [[Hc Hs]]. destruct (IH s2 Hs Hlen) as [-> ->]. done.
Qed.

Lemma two_digits_inj s s' :
  0 <= s < 60 -> 0 <= s' < 60 -> two_digits s = two_digits s' -> s = s'.
Proof.
  intros Hs Hs' H. unfold two_digits in H. inversion H as [[H1 H2]].
  assert (Hd : 0 <= s / 10 < 10 /\ 0 <= s' / 10 < 10).
  { split; split; try (apply Z.div_pos; lia);
      apply Z.div_lt_upper_bound; lia. }
  pose proof (Z.mod_pos_bound s 10). pose proof (Z.mod_pos_bound s' 10).
  apply pretty_N_char_inj in H1; [|lia..].
  apply pretty_N_char_inj in H2; [|lia..].
  rewrite (Z.div_mod s 10), (Z.div_mod s' 10) by lia. lia.
Qed.

Lemma msToClock_of_seconds ms :
  msToClock ms
  = String_of (Z.max 0 (ms / 1000) / 60) +:+ ":"
    +:+ two_digits (Z.max 0 (ms / 1000) mod 60).
Proof.
  unfold msToClock. cbv zeta.
  rewrite Z.rem_mod_nonneg by lia.
  rewrite pad_two_digits; [done|].
  pose proof (Z.mod_pos_bound (Z.max 0 (ms / 1000)) 60). lia.
Qed.

(** The same for the function with the quotients of [Z]. *)
Lemma msToClock_same_text_exact a b :
  msToClock a = msToClock b <-> Z.max 0 (a / 1000) = Z.max 0 (b / 1000).
Proof.
  rewrite !msToClock_of_seconds. split; [|by intros ->].
  intros H.
  set (A := Z.max 0 (a / 1000)) in *. set (B := Z.max 0 (b / 1000)) in *.
  pose proof (Z.mod_pos_bound A 60). pose proof (Z.mod_pos_bound B 60).
  apply string_app_inj_len in H as [Hm Hs]; [|reflexivity].
  unfold String_of in Hm. apply pretty_Z_inj in Hm.
  apply string_app_inj_len in Hs as [_ Hd]; [|reflexivity].
  apply two_digits_inj in Hd; [|lia..].
  rewrite (Z.div_mod A 60), (Z.div_mod B 60) by lia. lia.
Qed.

(** X14. On the safe integers [msToClock] shows the whole seconds of a
    duration and nothing else: two durations below 2^53 in absolute value
    have the same text exactly when they have the same number of whole
    seconds, negative ones counting as 0. *)
Theorem msToClock_same_text a b :
  safe_integer a -> safe_integer b ->
  (msToClock_binary64 a = msToClock_binary64 b
   <-> Z.max 0 (a / 1000) = Z.max 0 (b / 1000)).
Proof.
  intros [_ Ha] [_ Hb].
  rewrite !msToClock_binary64_exact by done.
  rewrite <- msToClock_same_text_exact.
  split; [by intros [= ->]|by intros ->].
Qed.

Lemma msToClock_same_text_witness :
  safe_integer 61500 /\ safe_integer 61999
  /\ (msToClock_binary64 61500 = msToClock_binary64 61999
      <-> Z.max 0 (61500 / 1000) = Z.max 0 (61999 / 1000)).
Proof.
  assert (Ha : safe_integer 61500) by (unfold safe_integer; lia).
  assert (Hb : safe_integer 61999) by (unfold safe_integer; lia).
  split; [exact Ha|]. split; [exact Hb|].
  exact (msToClock_same_text 61500 61999 Ha Hb).
Defined.

(** ** Records under a clock that never goes back *)

Lemma ordered_record_mono T T' r :
  T <= T' -> ordered_record T r -> ordered_record T' r.
Proof.
  intros HT (a & b & Ha & Hb & ? & ? & Hr). exists a, b.
  split_and!; try done; try lia.
  destruct (restStart r), (restEnd r); try done.
  destruct Hr as (? & ? & ?). split_and!; done || lia.
Qed.

Lemma ordered_all_mono T T' exs :
  T <= T' ->
  Forall (fun ex => Forall (ordered_record T) (sets ex)) exs ->
  Forall (fun ex => Forall (ordered_record T') (sets ex)) exs.
Proof.
  intros HT H. eapply Forall_impl; [exact H|]. intros ex Hex.
  eapply Forall_impl; [exact Hex|]. intros r. by apply ordered_record_mono.
Qed.

Lemma ordered_log_mono T T' w :
  T <= T' -> ordered_log T w -> ordered_log T' w.
Proof.
  intros HT [Hall Hset]. split; [by eapply ordered_all_mono|].
  intros Hp. destruct (Hset Hp) as (a & ? & ?). exists a. split; [done|lia].
Qed.

Lemma ordered_all_snoc T pre cur :
  Forall (fun ex => Forall (ordered_record T) (sets ex)) (pre ++ [cur])
  <-> Forall (fun ex => Forall (ordered_record T) (sets ex)) pre
      /\ Forall (ordered_record T) (sets cur).
Proof. by rewrite Forall_app, Forall_singleton. Qed.

Lemma ordered_record_close T t r c :
  T <= t -> ordered_record T r ->
  restStart r = Some c -> restEnd r = None ->
  ordered_record t (withRestEnd r (Some t)).
Proof.
  intros HT (a & b & Ha & Hb & ? & ? & Hr) Hc Hd.
  rewrite Hc, Hd in Hr. subst c. exists a, b. simpl. rewrite Hc.
  split_and!; done || lia.
Qed.

Lemma ordered_log_step T w o w' :
  index_last w -> phase_started w -> rest_log w -> ordered_log T w ->
  nondecreasing (T :: readings o) ->
  step w o = Ok w' ->
  ordered_log (latest T o) w'.
Proof.
  intros Hidx Hps Hrl [Hall Hset] Hmono Hs. snoc_form w Hidx.
  unfold rest_log, phase_started in *; simpl in *.
  destruct o; simpl in Hs, Hmono |- *;
    unfold startWorkout, startSet, endSetStartRest, endRestStartSet,
      nextExercise, nextExercise_force, finishWorkout, finishWorkout_force,
      resetAll in Hs; simpl in Hs;
    rewrite ?lookup_snoc_last in Hs.
  - (* start *)
    destruct Hmono as [HT _].
    destruct (truthy st) eqn:Hst; inversion Hs; subst; simpl.
    + apply (ordered_log_mono T); [done|]. by split.
    + split; [by eapply ordered_all_mono|done].
  - (* startSet *)
    destruct Hmono as [HT _].
    destruct (negb (truthy st) || truthy et || negb (Phase_eqb ph READY));
      inversion Hs; subst; simpl.
    + apply (ordered_log_mono T); [done|]. by split.
    + split; [by eapply ordered_all_mono|]. intros _. by exists t.
  - (* endSetStartRest *)
    destruct Hmono as [HT _].
    destruct (negb (truthy st) || truthy et || negb (Phase_eqb ph IN_SET))
      eqn:E; inversion Hs; subst; simpl.
    { apply (ordered_log_mono T); [done|]. by split. }
    guard_facts E. subst ph. destruct (Hset eq_refl) as (a & Ha & ?).
    split; [|done]. rewrite insert_snoc_last.
    apply (ordered_all_mono T t) in Hall; [|done].
    apply ordered_all_snoc in Hall as [Hpre Hcur].
    apply ordered_all_snoc. split; [done|]. simpl.
    apply Forall_app. split; [done|]. apply Forall_singleton.
    exists a, t. simpl. split_and!; done || lia.
  - (* endRestStartSet *)
    destruct Hmono as [HT _].
    destruct (negb (truthy st) || truthy et || negb (Phase_eqb ph IN_REST))
      eqn:E.
    { inversion Hs; subst. apply (ordered_log_mono T); [done|]. by split. }
    guard_facts E. subst ph.
    destruct Hrl as (pre' & cur' & l & r & c & Hex' & Hsets & _ & _ & Hc & Hd).
    apply app_inj_tail in Hex' as [<- <-].
    rewrite Hsets in Hs. rewrite length_app in Hs; simpl in Hs.
    replace (length l + 1 =? 0)%nat with false in Hs
      by (symmetry; apply Nat.eqb_neq; lia).
    inversion Hs; subst; simpl. rewrite insert_snoc_last.
    replace (length l + 1 - 1)%nat with (length l + 0)%nat by lia.
    rewrite alter_app_r. simpl.
    split; [|intros _; by exists t].
    apply ordered_all_snoc in Hall as [Hpre Hcur]. rewrite Hsets in Hcur.
    apply Forall_app in Hcur as [Hl Hr]. rewrite Forall_singleton in Hr.
    apply ordered_all_snoc. split; [by eapply ordered_all_mono|]. simpl.
    apply Forall_app. split.
    + eapply Forall_impl; [exact Hl|]. intros ?. by apply ordered_record_mono.
    + apply Forall_singleton. eapply (ordered_record_close T); eauto.
  - (* nextExercise *)
    destruct Hmono as [HT _].
    destruct (negb (truthy st) || truthy et) eqn:E.
    { inversion Hs; subst. apply (ordered_log_mono T); [done|]. by split. }
    apply (ordered_all_mono T t) in Hall; [|done].
    apply ordered_all_snoc in Hall as [Hpre Hcur].
    destruct ph; inversion Hs; subst; simpl; (split; [|done]).
    + apply ordered_all_snoc. split; [|constructor].
      by apply ordered_all_snoc.
    + destruct (Hset eq_refl) as (a & Ha & ?). rewrite Ha. simpl.
      rewrite insert_snoc_last.
      apply ordered_all_snoc. split; [|constructor].
      apply ordered_all_snoc. split; [done|]. simpl.
      apply Forall_app. split; [done|]. apply Forall_singleton.
      exists a, t. simpl. split_and!; done || lia.
    + destruct Hrl as (pre' & cur' & l & r & c & Hex' & Hsets & _ & _ & Hc & Hd).
      apply app_inj_tail in Hex' as [<- <-].
      rewrite Hsets, (length_app l [r]); simpl.
      replace (0 <? length l + 1)%nat with true
        by (symmetry; apply Nat.ltb_lt; lia).
      rewrite insert_snoc_last.
      replace (length l + 1 - 1)%nat with (length l + 0)%nat by lia.
      rewrite alter_app_r. simpl. rewrite Hd. simpl.
      rewrite Hsets in Hcur.
      apply Forall_app in Hcur as [Hl Hr]. rewrite Forall_singleton in Hr.
      apply ordered_all_snoc. split; [|constructor].
      apply ordered_all_snoc. split; [done|]. simpl.
      apply Forall_app. split; [done|]. apply Forall_singleton.
      eapply (ordered_record_close t); eauto. lia.
  - (* finish *)
    destruct Hmono as (HT & HtE & _).
    destruct (negb (truthy st) || truthy et) eqn:E.
    { inversion Hs; subst. apply (ordered_log_mono T); [lia|]. by split. }
    apply (ordered_all_mono T t) in Hall; [|done].
    apply ordered_all_snoc in Hall as [Hpre Hcur].
    destruct ph; simpl in Hs.
    + inversion Hs; subst; simpl. split; [|done].
      apply (ordered_all_mono t); [done|]. by apply ordered_all_snoc.
    + destruct (Hset eq_refl) as (a & Ha & ?). rewrite Ha in Hs.
      inversion Hs; subst; simpl. split; [|done].
      rewrite insert_snoc_last. apply (ordered_all_mono t); [done|].
      apply ordered_all_snoc. split; [done|]. simpl.
      apply Forall_app. split; [done|]. apply Forall_singleton.
      exists a, t. simpl. split_and!; done || lia.
    + destruct Hrl as (pre' & cur' & l & r & c & Hex' & Hsets & _ & _ & Hc & Hd).
      apply app_inj_tail in Hex' as [<- <-].
      rewrite Hsets, last_snoc, Hc, Hd in Hs.
      inversion Hs; subst; simpl. split; [|done].
      rewrite insert_snoc_last, length_app; simpl.
      replace (length l + 1 - 1)%nat with (length l + 0)%nat by lia.
      rewrite alter_app_r. simpl.
      rewrite Hsets in Hcur.
      apply Forall_app in Hcur as [Hl Hr]. rewrite Forall_singleton in Hr.
      apply (ordered_all_mono t); [done|].
      apply ordered_all_snoc. split; [done|]. simpl.
      apply Forall_app. split; [done|]. apply Forall_singleton.
      eapply (ordered_record_close t); eauto. lia.
  - (* reset *)
    inversion Hs; subst; simpl. split; [repeat constructor|done].
Qed.

Lemma ordered_log_run ops :
  forall T w w',
    reachable w -> ordered_log T w ->
    nondecreasing (T :: concat (map readings ops)) ->
    run w ops = Ok w' ->
    exists T', ordered_log T' w'.
Proof.
  induction ops as [|o ops IH]; intros T w w' Hw Hol Hmono Hrun.
  - inversion Hrun; subst. eauto.
  - simpl in Hrun. destruct (step w o) as [w1|] eqn:Hstep; [|discriminate].
    simpl in Hmono.
    destruct (nondecreasing_latest _ _ _ Hmono) as (Ho & _ & Hrest).
    apply (IH (latest T o) w1 w'); [by eapply reachable_step| |done|done].
    apply (ordered_log_step T w); auto using reachable_index_last,
      reachable_phase_started, reachable_rest_log.
Qed.

Lemma monotone_ordered_log ops w :
  monotone_trace ops -> run newWorkout ops = Ok w ->
  exists T, ordered_log T w.
Proof.
  intros Hmono Hrun.
  apply (ordered_log_run ops (hd 0 (concat (map readings ops))) newWorkout).
  - by exists [].
  - split; [repeat constructor|discriminate].
  - by apply nondecreasing_from_head.
  - done.
Qed.

(** X15. Under a clock that never goes back every logged record is well
    formed: [setStart] and [setEnd] are present and in order, a rest that has
    begun began when the set ended, and a rest that has ended has begun and
    ended no earlier than it began. *)
Theorem records_well_formed ops w :
  monotone_trace ops -> run newWorkout ops = Ok w ->
  forall ex r,
    ex ∈ exercises w -> r ∈ sets ex ->
    exists a b,
      setStart r = Some a /\ setEnd r = Some b /\ a <= b
      /\ (forall c, restStart r = Some c -> c = b)
      /\ (forall d, restEnd r = Some d ->
          exists c, restStart r = Some c /\ c <= d).
Proof.
  intros Hmono Hrun ex r Hex Hr.
  destruct (monotone_ordered_log ops w Hmono Hrun) as (T & Hall & _).
  assert (Hrec : ordered_record T r).
  { eapply Forall_forall; [|exact Hr].
    eapply (Forall_forall (fun ex => Forall (ordered_record T) (sets ex)));
      eauto. }
  destruct Hrec as (a & b & Ha & Hb & ? & ? & Hrest). exists a, b.
  split_and!; try done.
  - intros c Hc. rewrite Hc in Hrest.
    destruct (restEnd r); [by destruct Hrest|done].
  - intros d Hd. rewrite Hd in Hrest.
    destruct (restStart r) as [c|]; [|done].
    exists c. split; [done|]. by destruct Hrest as (_ & ? & _).
Qed.

Lemma records_well_formed_witness :
  monotone_trace [Start 1000; StartSet 2000; Finish 9000 9001]
  /\ run newWorkout [Start 1000; StartSet 2000; Finish 9000 9001]
     = Ok finished_session
  /\ exists a b,
       Some 2000 = Some a /\ Some 9000 = Some b /\ a <= b
       /\ (forall c, Some 9000 = Some c -> c = b)
       /\ (forall d, Some 9000 = Some d ->
           exists c, Some 9000 = Some c /\ c <= d).
Proof.
  assert (Hm : monotone_trace [Start 1000; StartSet 2000; Finish 9000 9001])
    by (unfold monotone_trace; simpl; lia).
  split; [exact Hm|]. split; [reflexivity|].
  apply (records_well_formed
           [Start 1000; StartSet 2000; Finish 9000 9001]
           finished_session Hm eq_refl
           {| id := "ex-1"; name := "Exercise 1";
              sets := [ {| setStart := Some 2000; setEnd := Some 9000;
                           restStart := Some 9000;
                           restEnd := Some 9000 |} ] |}
           {| setStart := Some 2000; setEnd := Some 9000;
              restStart := Some 9000; restEnd := Some 9000 |});
    apply list_elem_of_singleton; reflexivity.
Defined.

Lemma sumZ_nonneg l : Forall (fun x => 0 <= x) l -> 0 <= sumZ l.
Proof.
  induction 1 as [|x l Hx _ IH]; [done|]. rewrite sumZ_cons. lia.
Qed.

Lemma ordered_record_durations T r :
  ordered_record T r -> 0 <= liftMs r /\ 0 <= restDuration r.
Proof.
  intros (a & b & Ha & Hb & ? & ? & Hrest).
  unfold liftMs, restDuration. rewrite Ha, Hb.
  destruct (restStart r), (restEnd r); split; lia.
Qed.

(** X16. Under a clock that never goes back no total is negative: the
    lifting and resting totals of every exercise and of the session are at
    least 0, so [msToClock] never has to clamp them. *)
Theorem totals_never_negative ops w :
  monotone_trace ops -> run newWorkout ops = Ok w ->
  (forall ex, ex ∈ exercises w ->
     0 <= exWorkMs (exerciseTotals ex) /\ 0 <= exRestMs (exerciseTotals ex))
  /\ forall nowT,
       0 <= workMs (calcTotals w nowT) /\ 0 <= restMs (calcTotals w nowT).
Proof.
  intros Hmono Hrun.
  destruct (monotone_ordered_log ops w Hmono Hrun) as (T & Hall & _).
  assert (Hex : forall ex, ex ∈ exercises w ->
            0 <= exWorkMs (exerciseTotals ex)
            /\ 0 <= exRestMs (exerciseTotals ex)).
  { intros ex Hin. rewrite exerciseTotals_sum_of_rows_aux. simpl.
    assert (Hs : Forall (ordered_record T) (sets ex)).
    { eapply (Forall_forall (fun ex => Forall (ordered_record T) (sets ex)));
        eauto. }
    split; apply sumZ_nonneg, Forall_fmap;
      (eapply Forall_impl; [exact Hs|]); intros r Hr; simpl;
      by destruct (ordered_record_durations T r Hr). }
  split; [exact Hex|]. intros nowT.
  unfold calcTotals; simpl. rewrite fold_exercises_pair. simpl.
  split; apply sumZ_nonneg, Forall_fmap, Forall_forall;
    intros ex Hin; simpl; by destruct (Hex ex Hin).
Qed.

Lemma totals_never_negative_witness :
  monotone_trace [Start 1000; StartSet 2000; Finish 9000 9001]
  /\ run newWorkout [Start 1000; StartSet 2000; Finish 9000 9001]
     = Ok finished_session
  /\ 0 <= workMs (calcTotals finished_session 0)
  /\ 0 <= restMs (calcTotals finished_session 0).
Proof.
  assert (Hm : monotone_trace [Start 1000; StartSet 2000; Finish 9000 9001])
    by (unfold monotone_trace; simpl; lia).
  split; [exact Hm|]. split; [reflexivity|].
  exact (proj2 (totals_never_negative _ finished_session Hm eq_refl) 0).
Defined.

(** ** The live timers *)

Lemma timers_mono T T' w : T <= T' -> timers T w -> timers T' w.
Proof.
  intros HT [Hidle Hrun]. split; [done|].
  intros s Hs Hne. destruct (Hrun s Hs Hne) as (? & ? & Hx & Hset & Hrest & He).
  split_and!; try done; try lia.
  - intros x Hx'. destruct (Hx x Hx'). lia.
  - intros Hp. destruct (Hset Hp) as (a & x & ? & ? & ? & ?).
    exists a, x. split_and!; done || lia.
  - intros Hp. destruct (Hrest Hp) as (a & x & ? & ? & ? & ?).
    exists a, x. split_and!; done || lia.
  - intros e He'. destruct (He e He') as (? & ? & ? & ?).
    split_and!; done || lia.
Qed.

(** A started session whose guards take [endTime] for [null] has none. *)
Lemma timers_not_ended T w s :
  timers T w -> startTime w = Some s -> s <> 0 ->
  truthy (endTime w) = false -> endTime w = None.
Proof.
  intros [_ Hrun] Hs Hne Hf. destruct (Hrun s Hs Hne) as (? & _ & _ & _ & _ & He).
  destruct (endTime w) as [e|] eqn:Ee; [|done].
  destruct (He e eq_refl) as (? & _).
  pose proof (falsy_Some _ e Hf eq_refl). lia.
Qed.

Lemma timers_step T w o w' :
  timers T w -> 0 <= T ->
  nondecreasing (T :: readings o) ->
  step w o = Ok w' ->
  timers (latest T o) w'.
Proof.
  intros Htm HT0 Hmono Hs.
  assert (Hnoop : forall T', T <= T' -> timers T' w)
    by (intros; by eapply timers_mono).
  destruct o; simpl in Hs, Hmono |- *.
  - (* start *)
    destruct Hmono as [HT _]. unfold startWorkout in Hs.
    destruct (truthy (startTime w)) eqn:Hst; inversion Hs; subst; [auto|].
    split; simpl; [done|]. intros s Hs' Hne. inversion Hs'; subst.
    split_and!; try done; lia.
  - (* startSet *)
    destruct Hmono as [HT _]. unfold startSet in Hs.
    destruct (negb (truthy (startTime w)) || truthy (endTime w)
              || negb (Phase_eqb (phase w) READY)) eqn:E;
      inversion Hs; subst; [auto|].
    guard_facts E. destruct (truthy_true _ Hg0) as (s & Hst & Hne).
    pose proof (timers_not_ended T w s Htm Hst Hne Hg) as Het.
    destruct Htm as [_ Hrun].
    destruct (Hrun s Hst Hne) as (? & ? & Hx & _).
    split; simpl; [congruence|]. intros s' Hs' _.
    rewrite Hst in Hs'. inversion Hs'; subst s'.
    assert (Hest : exists x,
               (if negb (truthy (exerciseStartTime w)) then Some t
                else exerciseStartTime w) = Some x /\ s <= x /\ x <= t).
    { destruct (exerciseStartTime w) as [x|] eqn:Ex; simpl.
      - destruct (Hx x eq_refl). destruct (Z.eqb_spec x 0); simpl.
        + exists t. split_and!; done || lia.
        + exists x. split_and!; done || lia.
      - exists t. split_and!; done || lia. }
    destruct Hest as (x & -> & ? & ?).
    split_and!; try done; try lia.
    + intros x' Hx'. inversion Hx'; subst. lia.
    + intros _. exists t, x. split_and!; done || lia.
    + rewrite Het. discriminate.
  - (* endSetStartRest *)
    destruct Hmono as [HT _]. unfold endSetStartRest in Hs.
    destruct (negb (truthy (startTime w)) || truthy (endTime w)
              || negb (Phase_eqb (phase w) IN_SET)) eqn:E;
      [inversion Hs; subst; auto|].
    destruct (exercises w !! currentExerciseIndex w); inversion Hs; subst.
    guard_facts E. destruct (truthy_true _ Hg0) as (s & Hst & Hne).
    pose proof (timers_not_ended T w s Htm Hst Hne Hg) as Het.
    destruct Htm as [_ Hrun].
    destruct (Hrun s Hst Hne) as (? & ? & Hx & Hset & _).
    destruct (Hset E) as (a & x & ? & Hest & ? & ?).
    split; simpl; [congruence|]. intros s' Hs' _.
    rewrite Hst in Hs'. inversion Hs'; subst s'.
    split_and!; try done; try lia.
    + intros x' Hx'. destruct (Hx x' Hx'). lia.
    + intros _. exists t, x. split_and!; done || lia.
    + rewrite Het. discriminate.
  - (* endRestStartSet *)
    destruct Hmono as [HT _]. unfold endRestStartSet in Hs.
    destruct (negb (truthy (startTime w)) || truthy (endTime w)
              || negb (Phase_eqb (phase w) IN_REST)) eqn:E;
      [inversion Hs; subst; auto|].
    destruct (exercises w !! currentExerciseIndex w) as [ex|];
      [|discriminate].
    destruct (length (sets ex) =? 0)%nat; inversion Hs; subst; [auto|].
    guard_facts E. destruct (truthy_true _ Hg0) as (s & Hst & Hne).
    pose proof (timers_not_ended T w s Htm Hst Hne Hg) as Het.
    destruct Htm as [_ Hrun].
    destruct (Hrun s Hst Hne) as (? & ? & Hx & _ & Hrest & _).
    destruct (Hrest E) as (a & x & ? & Hest & ? & ?).
    split; simpl; [congruence|]. intros s' Hs' _.
    rewrite Hst in Hs'. inversion Hs'; subst s'.
    split_and!; try done; try lia.
    + intros x' Hx'. destruct (Hx x' Hx'). lia.
    + intros _. exists t, x. split_and!; done || lia.
    + rewrite Het. discriminate.
  - (* nextExercise *)
    destruct Hmono as [HT _]. unfold nextExercise in Hs.
    destruct (negb (truthy (startTime w)) || truthy (endTime w)) eqn:E;
      [inversion Hs; subst; auto|].
    guard_facts E. destruct (truthy_true _ Hg) as (s & Hst & Hne).
    pose proof (timers_not_ended T w s Htm Hst Hne E) as Het.
    destruct Htm as [_ Hrun]. destruct (Hrun s Hst Hne) as (? & ? & _).
    assert (Hkeep : forall w1, nextExercise_force w t = Ok w1 ->
              startTime w1 = startTime w /\ endTime w1 = endTime w).
    { unfold nextExercise_force. intros w1 H1.
      destruct (phase w), (exercises w !! currentExerciseIndex w);
        inversion H1; subst; done. }
    destruct (nextExercise_force w t) as [w1|] eqn:Hf; [|discriminate].
    destruct (Hkeep w1 eq_refl) as [Hst1 Het1].
    inversion Hs; subst. split; simpl; [congruence|].
    intros s' Hs' _. rewrite Hst1, Hst in Hs'. inversion Hs'; subst s'.
    split_and!; try done; try lia.
    rewrite Het1, Het. discriminate.
  - (* finish *)
    destruct Hmono as (HT & HtE & _). unfold finishWorkout in Hs.
    destruct (negb (truthy (startTime w)) || truthy (endTime w)) eqn:E;
      [inversion Hs; subst; apply Hnoop; lia|].
    destruct (finishWorkout_force w t); inversion Hs; subst.
    guard_facts E. destruct (truthy_true _ Hg) as (s & Hst & Hne).
    destruct Htm as [_ Hrun]. destruct (Hrun s Hst Hne) as (? & ? & Hx & _).
    split; simpl; [congruence|].
    intros s' Hs' _. rewrite Hst in Hs'. inversion Hs'; subst s'.
    split_and!; try done; try lia.
    + intros x Hx'. destruct (Hx x Hx'). lia.
    + intros e He. inversion He; subst. split_and!; try done; try lia.
      intros x Hx'. destruct (Hx x Hx'). lia.
  - (* reset *)
    inversion Hs; subst. split; simpl; [done|discriminate].
Qed.

Lemma timers_run ops :
  forall T w w' nowT,
    timers T w -> 0 <= T ->
    nondecreasing (T :: concat (map readings ops) ++ [nowT]) ->
    run w ops = Ok w' ->
    exists T', timers T' w' /\ T' <= nowT.
Proof.
  induction ops as [|o ops IH]; intros T w w' nowT Htm HT Hmono Hrun.
  - inversion Hrun; subst. exists T. split; [done|]. simpl in Hmono. lia.
  - simpl in Hrun. destruct (step w o) as [w1|] eqn:Hstep; [|discriminate].
    simpl in Hmono. rewrite <- app_assoc in Hmono.
    destruct (nondecreasing_latest _ _ _ Hmono) as (Ho & Hle & Hrest).
    apply (IH (latest T o) w1 w' nowT); [|lia|done|done].
    by eapply timers_step.
Qed.

Lemma nondecreasing_snoc2 l a b :
  nondecreasing (l ++ [a; b]) -> nondecreasing (l ++ [a]) /\ a <= b.
Proof.
  induction l as [|x l IH].
  - simpl. intros [? _]. done.
  - destruct l as [|y l].
    + simpl. intros (? & ? & _). done.
    + intros [Hxy H]. destruct (IH H) as [H1 H2]. split; [|done].
      split; done.
Qed.

(** X17. Under a clock that counts from 0 and never goes back, the three
    timers of the main screen nest up to the time that passes between their
    readings of the clock.  With [n1 <= n2] the readings of [workoutElapsed]
    and [exerciseElapsed] in one render and [n3] the reading of
    [phaseElapsed] (of this render or of an earlier one of the same state),
    the phase timer is at least 0 and exceeds the exercise timer by at most
    [n3 - n2], and the exercise timer exceeds the workout timer by at most
    [n2 - n1]; once [endTime] is set no timer reads the clock, the phase
    timer is 0 and the exercise timer is at most the workout timer. *)
Theorem timers_nested ops w n1 n2 n3 :
  nondecreasing (0 :: concat (map readings ops) ++ [n1; n2]) ->
  nondecreasing (0 :: concat (map readings ops) ++ [n3]) ->
  run newWorkout ops = Ok w ->
  0 <= phaseElapsed w n3
  /\ phaseElapsed w n3 <= exerciseElapsed w n2 + Z.max 0 (n3 - n2)
  /\ exerciseElapsed w n2 <= workoutElapsed w n1 + (n2 - n1)
  /\ (is_Some (endTime w) ->
      phaseElapsed w n3 = 0
      /\ exerciseElapsed w n2 <= workoutElapsed w n1).
Proof.
  intros Hm12 Hm3 Hrun.
  destruct (nondecreasing_snoc2 (0 :: concat (map readings ops)) n1 n2 Hm12)
    as [Hm1 H12].
  assert (H0 : timers 0 newWorkout) by (split; simpl; [done|discriminate]).
  destruct (timers_run ops 0 newWorkout w n1 H0 ltac:(lia) Hm1 Hrun)
    as (T1 & [Hidle Hrunning] & HT1).
  destruct (timers_run ops 0 newWorkout w n3 H0 ltac:(lia) Hm3 Hrun)
    as (T3 & [_ Hrunning3] & HT3).
  unfold phaseElapsed, exerciseElapsed, workoutElapsed.
  destruct (truthy (startTime w)) eqn:Hst.
  - destruct (truthy_true _ Hst) as (s & Hs & Hne).
    destruct (Hrunning s Hs Hne) as (? & ? & Hx & Hset & Hrest & He).
    destruct (Hrunning3 s Hs Hne) as (_ & ? & _ & Hset3 & Hrest3 & _).
    rewrite Hs. simpl.
    destruct (endTime w) as [e|] eqn:Ee.
    + destruct (He e eq_refl) as (? & ? & Hp & Hxe).
      rewrite truthy_Some by lia. simpl.
      destruct (exerciseStartTime w) as [x|] eqn:Ex.
      * destruct (Hx x eq_refl). specialize (Hxe x eq_refl).
        rewrite truthy_Some by lia. simpl. lia.
      * simpl. lia.
    + simpl. destruct (phase w) eqn:Hp.
      * destruct (exerciseStartTime w) as [x|] eqn:Ex.
        -- destruct (Hx x eq_refl). rewrite truthy_Some by lia. simpl.
           split_and!; try lia; try (intros [? ?]; discriminate).
        -- simpl. split_and!; try lia; try (intros [? ?]; discriminate).
      * destruct (Hset eq_refl) as (a & x & Ha & Hex & ? & ?).
        destruct (Hset3 eq_refl) as (a3 & x3 & Ha3 & Hex3 & ? & ?).
        destruct (Hx x Hex). rewrite Ha, Hex, truthy_Some by lia.
        simpl. split_and!; try lia; try (intros [? ?]; discriminate).
        all: rewrite Ha in Ha3; inversion Ha3; subst a3; lia.
      * destruct (Hrest eq_refl) as (a & x & Ha & Hex & ? & ?).
        destruct (Hrest3 eq_refl) as (a3 & x3 & Ha3 & Hex3 & ? & ?).
        destruct (Hx x Hex). rewrite Ha, Hex, truthy_Some by lia. simpl.
        rewrite Ha in Ha3; inversion Ha3; subst a3.
        destruct (active_setStart (active w));
          (split_and!; try lia; try (intros [? ?]; discriminate)).
  - destruct (Hidle eq_refl) as (-> & -> & ->). simpl.
    split_and!; try lia; try (intros [? ?]; discriminate).
Qed.

Lemma timers_nested_witness :
  nondecreasing
    (0 :: concat (map readings [Start 1000; StartSet 2000])
       ++ [11999; 11999])
  /\ nondecreasing
       (0 :: concat (map readings [Start 1000; StartSet 2000]) ++ [12000])
  /\ run newWorkout [Start 1000; StartSet 2000] = Ok lifting_session
  /\ 0 <= phaseElapsed lifting_session 12000
  /\ phaseElapsed lifting_session 12000
     <= exerciseElapsed lifting_session 11999 + Z.max 0 (12000 - 11999)
  /\ exerciseElapsed lifting_session 11999
     <= workoutElapsed lifting_session 11999 + (11999 - 11999)
  /\ (is_Some (endTime lifting_session) ->
      phaseElapsed lifting_session 12000 = 0
      /\ exerciseElapsed lifting_session 11999
         <= workoutElapsed lifting_session 11999).
Proof.
  assert (Hm12 : nondecreasing
            (0 :: concat (map readings [Start 1000; StartSet 2000])
               ++ [11999; 11999])) by (simpl; lia).
  assert (Hm3 : nondecreasing
            (0 :: concat (map readings [Start 1000; StartSet 2000])
               ++ [12000])) by (simpl; lia).
  split; [exact Hm12|]. split; [exact Hm3|]. split; [reflexivity|].
  exact (timers_nested [Start 1000; StartSet 2000] lifting_session
           11999 11999 12000 Hm12 Hm3 eq_refl).
Defined.

(** ** Leaving an exercise in the middle of a set *)

Lemma active_start_present_step w o w' :
  active_start_present w -> step w o = Ok w' -> active_start_present w'.
Proof.
  unfold active_start_present. intros Hw Hs.
  destruct o; simpl in Hs;
    unfold startWorkout, startSet, endSetStartRest, endRestStartSet,
      nextExercise, nextExercise_force, finishWorkout, resetAll in Hs;
    handler_cases; simpl in *; try exact Hw;
    split; intros; try discriminate; eauto.
Qed.

Lemma reachable_active_start_present w :
  reachable w -> active_start_present w.
Proof.
  apply reachable_ind_step; [|apply active_start_present_step].
  split; discriminate.
Qed.

(** X18. On a reachable state in phase [IN_SET] that has not ended,
    nextExercise closes the open set with the stored start of the interval
    (the fallback [?? t] is never taken), logs no rest for it, and appends a
    fresh exercise, numbered after the last one, that becomes current with
    its timer unset. *)
Theorem nextExercise_mid_set w t :
  reachable w -> phase w = IN_SET -> truthy (endTime w) = false ->
  exists ex a,
    exercises w !! currentExerciseIndex w = Some ex
    /\ active_setStart (active w) = Some a
    /\ nextExercise w t
       = Ok {| startTime := startTime w;
               exerciseStartTime := None;
               endTime := endTime w;
               phase := READY;
               currentExerciseIndex := S (currentExerciseIndex w);
               exercises :=
                 <[currentExerciseIndex w :=
                     withSets ex
                       (sets ex ++
                        [ {| setStart := Some a; setEnd := Some t;
                             restStart := None; restEnd := None |} ])]>
                   (exercises w)
                 ++ [ {| id :=
                           "ex-" +:+
                           String_of (Z.of_nat (length (exercises w)) + 1);
                         name :=
                           "Exercise " +:+
                           String_of (Z.of_nat (length (exercises w)) + 1);
                         sets := [] |} ];
               active := noActive |}.
Proof.
  intros Hw Hp He.
  pose proof (reachable_index_last w Hw) as Hidx.
  destruct (reachable_phase_started w Hw) as [Hr|Hst]; [congruence|].
  destruct (reachable_active_start_present w Hw) as [Hset _].
  destruct (Hset Hp) as [a Ha].
  destruct (index_last_lookup w Hidx) as (ex & Hex & _).
  exists ex, a. split; [done|]. split; [done|].
  unfold nextExercise, nextExercise_force.
  rewrite Hst, He, Hp, Hex, Ha. simpl.
  rewrite length_app, !length_insert. simpl.
  unfold index_last in Hidx.
  replace (length (exercises w) + 1 - 1)%nat
    with (S (currentExerciseIndex w)) by lia.
  reflexivity.
Qed.

Lemma nextExercise_mid_set_witness :
  reachable lifting_session /\ phase lifting_session = IN_SET
  /\ truthy (endTime lifting_session) = false
  /\ exists ex a,
       exercises lifting_session !! currentExerciseIndex lifting_session
       = Some ex
       /\ active_setStart (active lifting_session) = Some a
       /\ nextExercise lifting_session 9000
          = Ok {| startTime := startTime lifting_session;
                  exerciseStartTime := None;
                  endTime := endTime lifting_session;
                  phase := READY;
                  currentExerciseIndex :=
                    S (currentExerciseIndex lifting_session);
                  exercises :=
                    <[currentExerciseIndex lifting_session :=
                        withSets ex
                          (sets ex ++
                           [ {| setStart := Some a; setEnd := Some 9000;
                                restStart := None; restEnd := None |} ])]>
                      (exercises lifting_session)
                    ++ [ {| id :=
                              "ex-" +:+
                              String_of
                                (Z.of_nat
                                   (length (exercises lifting_session)) + 1);
                            name :=
                              "Exercise " +:+
                              String_of
                                (Z.of_nat
                                   (length (exercises lifting_session)) + 1);
                            sets := [] |} ];
                  active := noActive |}.
Proof.
  split; [exact lifting_session_reachable|]. split; [reflexivity|].
  split; [reflexivity|].
  exact (nextExercise_mid_set lifting_session 9000
           lifting_session_reachable eq_refl eq_refl).
Defined.

(** ** The totals and finishing twice, where the guards see [endTime] *)

(** X19. Under a clock that never goes back, in every state that the
    operations reach and whose [endTime] the guards take for set (any
    reading but 0), lifting plus resting time is at most the time in the
    gym. *)
Theorem gym_time_covers_totals ops w nowT :
  monotone_trace ops ->
  run newWorkout ops = Ok w ->
  truthy (endTime w) = true ->
  workMs (calcTotals w nowT) + restMs (calcTotals w nowT)
  <= gymMs (calcTotals w nowT).
Proof. intros Hm Hr He. by apply (totals_le_gym ops). Qed.

Lemma gym_time_covers_totals_witness :
  monotone_trace [Start 1000; StartSet 2000; Finish 9000 9001]
  /\ run newWorkout [Start 1000; StartSet 2000; Finish 9000 9001]
     = Ok finished_session
  /\ truthy (endTime finished_session) = true
  /\ workMs (calcTotals finished_session 0)
     + restMs (calcTotals finished_session 0)
     <= gymMs (calcTotals finished_session 0).
Proof.
  assert (Hm : monotone_trace [Start 1000; StartSet 2000; Finish 9000 9001])
    by (unfold monotone_trace; simpl; lia).
  split; [exact Hm|]. split; [reflexivity|]. split; [reflexivity|].
  exact (gym_time_covers_totals _ finished_session 0 Hm eq_refl eq_refl).
Defined.

(** X20. Under a clock that counts from 0 and never goes back, finish() on
    a state that the operations reach returns a state, and a second
    finish(), whatever the clock reads then, returns that state again.
    After the first, [endTime] is present exactly when the stored
    [startTime] is truthy: a session whose start() read 0 is not ended by
    finish(). *)
Theorem finish_twice_on_clock ops s t tEnd t' tEnd' :
  clock_trace (ops ++ [Finish t tEnd]) ->
  run newWorkout ops = Ok s ->
  exists s1,
    finishWorkout s t tEnd = Ok s1
    /\ finishWorkout s1 t' tEnd' = Ok s1
    /\ (is_Some (endTime s1) <-> truthy (startTime s) = true).
Proof.
  intros Hclock Hrun.
  destruct (finish_idempotent_on_clock ops s t tEnd t' tEnd' Hclock Hrun)
    as (s1 & Hf1 & Hf2 & Himp).
  exists s1. split; [done|]. split; [done|]. split; [|done].
  intros [e He]. destruct (truthy (startTime s)) eqn:Hst; [done|].
  assert (Hrun1 : run newWorkout (ops ++ [Finish t tEnd]) = Ok s1).
  { rewrite (run_app _ _ _ _ Hrun). simpl. by rewrite Hf1. }
  assert (Hpos : stored_positive s1).
  { eapply (stored_positive_run _ 0); eauto using accounted_newWorkout;
      [split; simpl; discriminate | lia]. }
  destruct Hpos as [_ Hpos]. specialize (Hpos e He).
  assert (Hend : truthy (endTime s1) = true)
    by (rewrite He; apply truthy_Some; lia).
  assert (Hr1 : reachable s1) by (by exists (ops ++ [Finish t tEnd])).
  destruct (reachable_ended_ready s1 Hr1 Hend) as (Hst1 & _).
  unfold finishWorkout in Hf1. rewrite Hst in Hf1. simpl in Hf1.
  inversion Hf1; subst s1. congruence.
Qed.

Lemma finish_twice_on_clock_witness :
  clock_trace ([Start 1000; StartSet 2000] ++ [Finish 9000 9001])
  /\ run newWorkout [Start 1000; StartSet 2000] = Ok lifting_session
  /\ exists s1,
       finishWorkout lifting_session 9000 9001 = Ok s1
       /\ finishWorkout s1 20000 20000 = Ok s1
       /\ (is_Some (endTime s1)
           <-> truthy (startTime lifting_session) = true).
Proof.
  assert (Hc : clock_trace
            ([Start 1000; StartSet 2000] ++ [Finish 9000 9001]))
    by (unfold clock_trace; simpl; lia).
  split; [exact Hc|]. split; [reflexivity|].
  exact (finish_twice_on_clock [Start 1000; StartSet 2000] lifting_session
           9000 9001 20000 20000 Hc eq_refl).
Defined.

(** ** The exercise timer covers the time logged in the exercise *)

Lemma exercise_accounted_mono T T' w :
  T <= T' -> exercise_accounted T w -> exercise_accounted T' w.
Proof.
  intros HT (pre & cur & Hex & Hnone & Hsome).
  exists pre, cur. split_and!; try done.
  intros x Hx. destruct (Hsome x Hx) as (f & ? & ? & ? & Hopen & He).
  exists f. split_and!; try done; try lia.
  destruct (phase w); [done| |].
  - destruct Hopen as (a & ? & ? & ?). exists a. split_and!; done || lia.
  - destruct Hopen as (l & r & a & ? & ? & ? & ? & ?).
    exists l, r, a. split_and!; done || lia.
Qed.

Lemma exercise_accounted_step T w o w' :
  index_last w -> timers T w -> exercise_accounted T w -> 0 <= T ->
  nondecreasing (T :: readings o) ->
  step w o = Ok w' ->
  exercise_accounted (latest T o) w'.
Proof.
  intros Hidx Htm Hea HT0 Hmono Hs.
  assert (Hnoop : forall T', T <= T' -> exercise_accounted T' w)
    by (intros; by eapply exercise_accounted_mono).
  destruct Hea as (pre & cur & Hex & Hnone & Hsome).
  assert (Hi : currentExerciseIndex w = length pre).
  { unfold index_last in Hidx. rewrite Hex, length_app in Hidx.
    simpl in Hidx. lia. }
  destruct o; simpl in Hs, Hmono |- *.
  - (* start *)
    destruct Hmono as [HT _]. unfold startWorkout in Hs.
    destruct (truthy (startTime w)) eqn:Hst; inversion Hs; subst; [auto|].
    destruct Htm as [Hidle _]. destruct (Hidle Hst) as (Hest & _).
    exists pre, cur. simpl. split_and!; [done|auto|discriminate].
  - (* startSet *)
    destruct Hmono as [HT _]. unfold startSet in Hs.
    destruct (negb (truthy (startTime w)) || truthy (endTime w)
              || negb (Phase_eqb (phase w) READY)) eqn:E;
      inversion Hs; subst; [auto|].
    guard_facts E. destruct (truthy_true _ Hg0) as (s & Hst & Hne).
    pose proof (timers_not_ended T w s Htm Hst Hne Hg) as Het.
    destruct Htm as [_ Hrun].
    destruct (Hrun s Hst Hne) as (? & ? & Hx & _).
    exists pre, cur. cbn [exercises exerciseStartTime phase active endTime].
    destruct (exerciseStartTime w) as [x|] eqn:Ex.
    + destruct (Hx x eq_refl). rewrite truthy_Some by lia. simpl.
      split_and!; [done|discriminate|].
      intros x' Hx'. inversion Hx'; subst x'.
      destruct (Hsome x eq_refl) as (f & ? & ? & ? & _ & _).
      exists f. split_and!; try done; try lia.
      * exists t. split_and!; done || lia.
      * rewrite Het. discriminate.
    + split_and!; [done|discriminate|].
      intros x' Hx'. inversion Hx'; subst x'.
      exists t. rewrite (Hnone eq_refl). simpl.
      split_and!; try done; try lia.
      * exists t. split_and!; done || lia.
      * rewrite Het. discriminate.
  - (* endSetStartRest *)
    destruct Hmono as [HT _]. unfold endSetStartRest in Hs.
    destruct (negb (truthy (startTime w)) || truthy (endTime w)
              || negb (Phase_eqb (phase w) IN_SET)) eqn:E;
      [inversion Hs; subst; auto|].
    rewrite Hex, Hi, lookup_snoc_last, insert_snoc_last in Hs.
    inversion Hs; subst; clear Hs.
    guard_facts E. destruct (truthy_true _ Hg0) as (s & Hst & Hne).
    pose proof (timers_not_ended T w s Htm Hst Hne Hg) as Het.
    destruct Htm as [_ Hrun].
    destruct (Hrun s Hst Hne) as (_ & _ & _ & Hset & _).
    destruct (Hset E) as (a0 & x & _ & Hest & _).
    destruct (Hsome x Hest) as (f & ? & ? & ? & Hopen & _).
    rewrite E in Hopen. destruct Hopen as (a & Ha & ? & ?).
    eexists pre, _. simpl. split_and!; [done|congruence|].
    intros x' Hx'. rewrite Hest in Hx'. inversion Hx'; subst x'.
    exists t. simpl. rewrite setsMs_app. unfold liftMs, restDuration.
    simpl. rewrite Ha. split_and!; try lia.
    + eexists (sets cur), _, t. split_and!; done || lia.
    + rewrite Het. discriminate.
  - (* endRestStartSet *)
    destruct Hmono as [HT _]. unfold endRestStartSet in Hs.
    destruct (negb (truthy (startTime w)) || truthy (endTime w)
              || negb (Phase_eqb (phase w) IN_REST)) eqn:E;
      [inversion Hs; subst; auto|].
    rewrite Hex, Hi, lookup_snoc_last in Hs.
    destruct (length (sets cur) =? 0)%nat eqn:Hlen;
      [inversion Hs; subst; auto|].
    rewrite insert_snoc_last in Hs. inversion Hs; subst; clear Hs.
    guard_facts E. destruct (truthy_true _ Hg0) as (s & Hst & Hne).
    pose proof (timers_not_ended T w s Htm Hst Hne Hg) as Het.
    destruct Htm as [_ Hrun].
    destruct (Hrun s Hst Hne) as (_ & _ & _ & _ & Hrest & _).
    destruct (Hrest E) as (a0 & x & _ & Hest & _).
    destruct (Hsome x Hest) as (f & ? & ? & ? & Hopen & _).
    rewrite E in Hopen. destruct Hopen as (l & r & a & Hsets & Ha & Hb & ? & ?).
    eexists pre, _. simpl. split_and!; [done|congruence|].
    intros x' Hx'. rewrite Hest in Hx'. inversion Hx'; subst x'.
    exists t. simpl. rewrite Hsets in *. rewrite alter_last_snoc.
    rewrite !setsMs_app in *.
    rewrite liftMs_withRestEnd, (restDuration_close _ _ _ Ha).
    rewrite (restDuration_open _ Hb) in *.
    split_and!; try lia.
    + exists t. split_and!; done || lia.
    + rewrite Het. discriminate.
  - (* nextExercise *)
    destruct Hmono as [HT _]. unfold nextExercise in Hs.
    destruct (negb (truthy (startTime w)) || truthy (endTime w)) eqn:E;
      [inversion Hs; subst; auto|].
    destruct (nextExercise_force w t) as [w1|]; inversion Hs; subst.
    eexists (exercises w1), _. simpl. split_and!; [done|done|discriminate].
  - (* finish *)
    destruct Hmono as (HT & HtE & _). unfold finishWorkout in Hs.
    destruct (negb (truthy (startTime w)) || truthy (endTime w)) eqn:E;
      [inversion Hs; subst; apply Hnoop; lia|].
    guard_facts E. destruct (truthy_true _ Hg) as (s & Hst & Hne).
    destruct Htm as [_ Hrun].
    destruct (Hrun s Hst Hne) as (_ & _ & _ & Hset & Hrest & _).
    unfold finishWorkout_force in Hs.
    rewrite Hex, Hi, lookup_snoc_last in Hs.
    destruct (phase w) eqn:Hp.
    + inversion Hs; subst; clear Hs. exists pre, cur. simpl.
      split_and!; [done|done|].
      intros x Hx. destruct (Hsome x Hx) as (f & ? & ? & ? & _ & _).
      exists f. split_and!; try done; try lia.
      intros e He. inversion He; subst. lia.
    + rewrite insert_snoc_last in Hs. inversion Hs; subst; clear Hs.
      destruct (Hset eq_refl) as (a0 & x & _ & Hest & _).
      destruct (Hsome x Hest) as (f & ? & ? & ? & (a & Ha & ? & ?) & _).
      eexists pre, _. simpl. split_and!; [done|congruence|].
      intros x' Hx'. rewrite Hest in Hx'. inversion Hx'; subst x'.
      exists t. simpl. rewrite setsMs_app. unfold liftMs, restDuration.
      simpl. rewrite Ha. simpl. split_and!; try done; try lia.
      intros e He. inversion He; subst. lia.
    + destruct (Hrest eq_refl) as (a0 & x & _ & Hest & _).
      destruct (Hsome x Hest)
        as (f & ? & ? & ? & (l & r & a & Hsets & Ha & Hb & ? & ?) & _).
      rewrite Hsets, last_snoc, Ha, Hb, insert_snoc_last in Hs.
      inversion Hs; subst; clear Hs.
      eexists pre, _. simpl. split_and!; [done|congruence|].
      intros x' Hx'. rewrite Hest in Hx'. inversion Hx'; subst x'.
      exists t. simpl. rewrite alter_last_snoc.
      rewrite Hsets in *. rewrite !setsMs_app in *.
      rewrite liftMs_withRestEnd, (restDuration_close _ _ _ Ha).
      rewrite (restDuration_open _ Hb) in *.
      split_and!; try done; try lia.
      intros e He. inversion He; subst. lia.
  - (* reset *)
    inversion Hs; subst. eexists [], _. simpl.
    split_and!; [done|done|discriminate].
Qed.

Lemma exercise_accounted_run ops :
  forall T w w' nowT,
    index_last w -> timers T w -> exercise_accounted T w -> 0 <= T ->
    nondecreasing (T :: concat (map readings ops) ++ [nowT]) ->
    run w ops = Ok w' ->
    exists T',
      index_last w' /\ timers T' w' /\ exercise_accounted T' w'
      /\ T' <= nowT.
Proof.
  induction ops as [|o ops IH];
    intros T w w' nowT Hidx Htm Hea HT Hmono Hrun.
  - inversion Hrun; subst. exists T. split_and!; try done.
    simpl in Hmono. lia.
  - simpl in Hrun. destruct (step w o) as [w1|] eqn:Hstep; [|discriminate].
    simpl in Hmono. rewrite <- app_assoc in Hmono.
    destruct (nondecreasing_latest _ _ _ Hmono) as (Ho & Hle & Hrest).
    apply (IH (latest T o) w1 w' nowT); try done; [| | |lia].
    + by eapply index_last_step.
    + by eapply timers_step.
    + by eapply exercise_accounted_step.
Qed.

(** X21. Under a clock that counts from 0 and never goes back, the
    lifting and resting time logged in the current exercise is at most the
    exercise timer, at every later reading. *)
Theorem exercise_timer_covers_log ops w nowT :
  nondecreasing (0 :: concat (map readings ops) ++ [nowT]) ->
  run newWorkout ops = Ok w ->
  exists ex,
    exercises w !! currentExerciseIndex w = Some ex
    /\ exWorkMs (exerciseTotals ex) + exRestMs (exerciseTotals ex)
       <= exerciseElapsed w nowT.
Proof.
  intros Hmono Hrun.
  assert (Ht0 : timers 0 newWorkout) by (split; simpl; [done|discriminate]).
  assert (He0 : exercise_accounted 0 newWorkout).
  { eexists [], _. simpl. split_and!; [done|done|discriminate]. }
  destruct (exercise_accounted_run ops 0 newWorkout w nowT
              eq_refl Ht0 He0 ltac:(lia) Hmono Hrun)
    as (T & Hidx & [Hidle Hrunning] & (pre & cur & Hex & Hnone & Hsome) & HT).
  assert (Hi : currentExerciseIndex w = length pre).
  { unfold index_last in Hidx. rewrite Hex, length_app in Hidx.
    simpl in Hidx. lia. }
  exists cur. rewrite Hex, Hi. split; [apply lookup_snoc_last|].
  unfold exerciseTotals; simpl.
  pose proof (fold_addSet (sets cur) (0, 0)) as Hsum. simpl in Hsum.
  rewrite Hsum. unfold exerciseElapsed.
  destruct (exerciseStartTime w) as [x|] eqn:Ex.
  - destruct (Hsome x eq_refl) as (f & ? & ? & ? & _ & He).
    assert (Hx : 0 < x).
    { destruct (truthy (startTime w)) eqn:Hst.
      - destruct (truthy_true _ Hst) as (s & Hs & Hne).
        destruct (Hrunning s Hs Hne) as (? & _ & Hxs & _).
        destruct (Hxs x eq_refl). lia.
      - destruct (Hidle eq_refl) as (Hn & _). congruence. }
    rewrite truthy_Some by lia. simpl.
    destruct (endTime w) as [e|]; simpl.
    + specialize (He e eq_refl). lia.
    + lia.
  - rewrite (Hnone eq_refl). simpl. lia.
Qed.

Lemma exercise_timer_covers_log_witness :
  nondecreasing
    (0 :: concat (map readings [Start 1000; StartSet 2000;
                                EndSetStartRest 9000]) ++ [12000])
  /\ run newWorkout [Start 1000; StartSet 2000; EndSetStartRest 9000]
     = Ok resting_session
  /\ exists ex,
       exercises resting_session !! currentExerciseIndex resting_session
       = Some ex
       /\ exWorkMs (exerciseTotals ex) + exRestMs (exerciseTotals ex)
          <= exerciseElapsed resting_session 12000.
Proof.
  assert (Hm : nondecreasing
            (0 :: concat (map readings [Start 1000; StartSet 2000;
                                        EndSetStartRest 9000]) ++ [12000]))
    by (simpl; lia).
  split; [exact Hm|]. split; [reflexivity|].
  exact (exercise_timer_covers_log
           [Start 1000; StartSet 2000; EndSetStartRest 9000]
           resting_session 12000 Hm eq_refl).
Defined.
